(** * The task scheduling engine of Main.py

    A shallow embedding of the scheduling and execution engine: the [Task]
    and [AI] objects, the [TaskManager] operations (prioritisation,
    dispatch, status updates, persistence) and one iteration of the worker
    loop [AIThread.run].

    Python objects are mutable and shared by reference: a task sits at the
    same time in the manager's collection, in the dependency lists of other
    tasks and in a worker's queue.  The embedding therefore keeps an object
    store ([heap]) of tasks addressed by location, and every list of tasks
    of the program is a list of locations.  The workers are the entries of
    the global list [ais], addressed by their position in it.

    Operations run in a state-and-exception monad [M]: a computation ends
    with [Return], with [Raise] of a Python exception, or with [OutOfModel]
    when it reads a location that the store does not hold (a Python
    reference never dangles) or meets a value outside the types the records
    give to the fields (only on a state file that the program did not
    write).

    Not modelled: the durations of [time.sleep] and thread interleaving
    (each operation is taken as one atomic step).  The Graphviz programs
    behind [dot.render] are a parameter of [visualize_task_dependencies].
    The outputs of [logging] are kept as a list of records in the state. *)

From Stdlib Require Import ZArith String Ascii DecimalString.
From stdpp Require Import base list strings gmap.

(** ** Strings *)

(** [str.lower] on the characters below U+0100: the letters A-Z and the
    upper-case letters of Latin-1 (U+00C0-U+00DE without the sign U+00D7)
    move up by 32, every other character is kept. *)
Definition lower_char (c : ascii) : ascii :=
  let n := nat_of_ascii c in
  if ((65 <=? n) && (n <=? 90)) || ((192 <=? n) && (n <=? 222) && negb (n =? 215))
  then ascii_of_nat (n + 32)
  else c.

Fixpoint lower (s : string) : string :=
  match s with
  | EmptyString => EmptyString
  | String c r => String (lower_char c) (lower r)
  end.

(** [needle in hay] on two strings: substring containment.  The program
    never applies [in] to two strings; this is the matching that the
    specification describes, kept to compare it with [suitable] below. *)
Fixpoint str_in (needle hay : string) : bool :=
  String.prefix needle hay
  || match hay with
     | EmptyString => false
     | String _ r => str_in needle r
     end.

(** [str(n)] for an integer, as the f-strings format it. *)
Definition str_of_int (n : Z) : string := NilZero.string_of_int (Z.to_int n).

(** ** Objects *)

Definition loc := nat.

Module Task.

Record t := mk {
  id : Z;
  description : string;
  priority : Z;
  deadline : option string;
  dependencies : list loc;
  status : string;
  assigned_to : option string;
  is_completed : bool
}.

(** [Task.__init__]: [dependencies if dependencies else []]. *)
Definition init (id : Z) (description : string) (priority : Z)
    (deadline : option string) (dependencies : option (list loc)) : t :=
  mk id description priority deadline
     (match dependencies with
      | Some (d :: ds) => d :: ds
      | _ => []
      end)
     "Pending" None false.

Definition set_priority (p : Z) (x : t) : t :=
  mk (id x) (description x) p (deadline x) (dependencies x) (status x)
     (assigned_to x) (is_completed x).

Definition set_status (s : string) (x : t) : t :=
  mk (id x) (description x) (priority x) (deadline x) (dependencies x) s
     (assigned_to x) (is_completed x).

Definition set_assigned_to (a : option string) (x : t) : t :=
  mk (id x) (description x) (priority x) (deadline x) (dependencies x)
     (status x) a (is_completed x).

Definition set_is_completed (b : bool) (x : t) : t :=
  mk (id x) (description x) (priority x) (deadline x) (dependencies x)
     (status x) (assigned_to x) b.

End Task.

Module AI.

Record t := mk {
  name : string;
  role : string;
  capabilities : list string;
  tasks : list loc;
  is_busy : bool;
  performance_record : list (string * Z)
}.

(** [AI.__init__] *)
Definition init (name role : string) (capabilities : list string) : t :=
  mk name role capabilities [] false [].

Definition set_tasks (q : list loc) (x : t) : t :=
  mk (name x) (role x) (capabilities x) q (is_busy x) (performance_record x).

Definition set_is_busy (b : bool) (x : t) : t :=
  mk (name x) (role x) (capabilities x) (tasks x) b (performance_record x).

Definition set_performance_record (r : list (string * Z)) (x : t) : t :=
  mk (name x) (role x) (capabilities x) (tasks x) (is_busy x) r.

End AI.

Module TaskManager.

Record t := mk { tasks : list loc }.

(** [TaskManager.__init__] *)
Definition init : t := mk [].

End TaskManager.

(** ** Files and JSON values *)

Local Unset Elimination Schemes.

Inductive json :=
| JNull
| JBool (b : bool)
| JInt (n : Z)
| JStr (s : string)
| JList (items : list json)
| JDict (items : list (string * json)).

Local Set Elimination Schemes.

(** What a file holds: the text of a JSON value (kept as the value that
    [json.load] reads back from it), or text that is not JSON. *)
Inductive file_data :=
| JsonText (j : json)
| NotJson.

(** ** Exceptions, log records, state *)

Inductive exn :=
| TypeError
| ValueError
| JSONDecodeError
| FileNotFoundError
| Exception (msg : string).

Inductive level := INFO | WARNING | ERROR.

Record state := mkState {
  heap : list Task.t;
  ais : list AI.t;
  task_manager : TaskManager.t;
  files : gmap string file_data;
  log : list (level * string)
}.

Definition set_heap (h : list Task.t) (st : state) : state :=
  mkState h (ais st) (task_manager st) (files st) (log st).

Definition set_ais (a : list AI.t) (st : state) : state :=
  mkState (heap st) a (task_manager st) (files st) (log st).

Definition set_task_manager (m : TaskManager.t) (st : state) : state :=
  mkState (heap st) (ais st) m (files st) (log st).

Definition set_files (f : gmap string file_data) (st : state) : state :=
  mkState (heap st) (ais st) (task_manager st) f (log st).

Definition set_log (g : list (level * string)) (st : state) : state :=
  mkState (heap st) (ais st) (task_manager st) (files st) g.

(** ** The monad *)

Inductive outcome (A : Type) :=
| Return (a : A)
| Raise (e : exn)
| OutOfModel.

Arguments Return {A} a.
Arguments Raise {A} e.
Arguments OutOfModel {A}.

Definition M (A : Type) : Type := state → outcome A * state.

Definition ret {A} (a : A) : M A := λ st, (Return a, st).

Definition bind {A B} (m : M A) (k : A → M B) : M B :=
  λ st,
    match m st with
    | (Return a, st') => k a st'
    | (Raise e, st') => (Raise e, st')
    | (OutOfModel, st') => (OutOfModel, st')
    end.

Notation "'let!' x ':=' m 'in' k" := (bind m (λ x, k))
  (at level 10, x name, m at level 100, k at level 200).
Notation "m '>>' k" := (bind m (λ _, k))
  (at level 90, right associativity).

Definition raise {A} (e : exn) : M A := λ st, (Raise e, st).

Definition out_of_model {A} : M A := λ st, (OutOfModel, st).

(** [try: body except Exception as e: handler e]: every exception class of
    the model derives from [Exception]. *)
Definition try_except {A} (body : M A) (handler : exn → M A) : M A :=
  λ st,
    match body st with
    | (Raise e, st') => handler e st'
    | r => r
    end.

(** [try: body finally: fin]: [fin] runs on every exit of [body]; the
    outcome of [body] stands unless [fin] itself fails. *)
Definition try_finally {A} (body : M A) (fin : M unit) : M A :=
  λ st,
    match body st with
    | (OutOfModel, st') => (OutOfModel, st')
    | (r, st') =>
        match fin st' with
        | (Return _, st'') => (r, st'')
        | (Raise e, st'') => (Raise e, st'')
        | (OutOfModel, st'') => (OutOfModel, st'')
        end
    end.

Fixpoint for_each {A} (xs : list A) (body : A → M unit) : M unit :=
  match xs with
  | [] => ret tt
  | x :: rest => body x >> for_each rest body
  end.

(** Reading and writing the store. *)
Definition deref (l : loc) : M Task.t :=
  λ st,
    match heap st !! l with
    | Some task => (Return task, st)
    | None => (OutOfModel, st)
    end.

Definition update_task (l : loc) (f : Task.t → Task.t) : M unit :=
  λ st,
    match heap st !! l with
    | Some task => (Return tt, set_heap (<[l := f task]> (heap st)) st)
    | None => (OutOfModel, st)
    end.

Definition get_ai (w : nat) : M AI.t :=
  λ st,
    match ais st !! w with
    | Some ai => (Return ai, st)
    | None => (OutOfModel, st)
    end.

Definition update_ai (w : nat) (f : AI.t → AI.t) : M unit :=
  λ st,
    match ais st !! w with
    | Some ai => (Return tt, set_ais (<[w := f ai]> (ais st)) st)
    | None => (OutOfModel, st)
    end.

Definition get_tasks : M (list loc) :=
  λ st, (Return (TaskManager.tasks (task_manager st)), st).

Definition logging (lv : level) (msg : string) : M unit :=
  λ st, (Return tt, set_log (log st ++ [(lv, msg)]) st).

(** ** Task *)

(** [all(dep.is_completed for dep in deps)]: stops at the first dependency
    whose flag is false. *)
Fixpoint all_completed (deps : list loc) : M bool :=
  match deps with
  | [] => ret true
  | d :: rest =>
      let! dep := deref d in
      if Task.is_completed dep then all_completed rest else ret false
  end.

Definition is_ready_to_execute (l : loc) : M bool :=
  let! task := deref l in
  all_completed (Task.dependencies task).

(** ** AI *)

Definition record_performance (w : nat) (l : loc) (time_taken : Z) : M unit :=
  let! task := deref l in
  update_ai w (λ ai,
    AI.set_performance_record
      (AI.performance_record ai ++ [(Task.description task, time_taken)]) ai).

(** [AI.collaborate]: [other_ai.tasks.append(task)]. *)
Definition collaborate (w other_ai : nat) (l : loc) : M unit :=
  let! self := get_ai w in
  let! other := get_ai other_ai in
  let! task := deref l in
  logging INFO (AI.name self +:+ " collaborating with " +:+ AI.name other
                +:+ " on task: " +:+ Task.description task) >>
  update_ai other_ai (λ ai, AI.set_tasks (AI.tasks ai ++ [l]) ai).

(** ** TaskManager: dispatch and status *)

(** The condition of the comprehension in [assign_task]:
    [task.description.lower() in ai.capabilities and not ai.is_busy];
    [in] on a list is membership by equality. *)
Definition suitable (task : Task.t) (ai : AI.t) : bool :=
  bool_decide (lower (Task.description task) ∈ AI.capabilities ai)
  && negb (AI.is_busy ai).

Fixpoint suitable_from (task : Task.t) (i : nat) (pool : list AI.t) : list nat :=
  match pool with
  | [] => []
  | ai :: rest =>
      if suitable task ai
      then i :: suitable_from task (S i) rest
      else suitable_from task (S i) rest
  end.

(** [suitable_ais], as positions in [ais]. *)
Definition suitable_ais (st : state) (task : Task.t) : list nat :=
  suitable_from task 0 (ais st).

(** [random.choice(xs)] on a non-empty list: [pick] is the random draw. *)
Definition random_choice (pick : nat) (xs : list nat) : M nat :=
  match xs !! (pick mod length xs) with
  | Some x => ret x
  | None => out_of_model
  end.

Definition assign_task (pick : nat) (l : loc) : M unit :=
  let! task := deref l in
  let! pool := (λ st, (Return (suitable_ais st task), st)) in
  let! go := match pool with
             | [] => ret false
             | _ :: _ => is_ready_to_execute l
             end in
  if go : bool then
    let! chosen_ai := random_choice pick pool in
    let! ai := get_ai chosen_ai in
    update_ai chosen_ai (λ a, AI.set_tasks (AI.tasks a ++ [l]) a) >>
    update_task l (Task.set_assigned_to (Some (AI.name ai))) >>
    update_task l (Task.set_status "Assigned") >>
    logging INFO ("Task '" +:+ Task.description task +:+ "' assigned to "
                  +:+ AI.name ai +:+ ".")
  else
    let! ready := is_ready_to_execute l in
    if negb ready
    then logging INFO ("Task '" +:+ Task.description task
                       +:+ "' is waiting for dependencies.")
    else logging WARNING ("No suitable AI found for task: "
                          +:+ Task.description task).

(** The loop of [update_task_status], with its [break]. *)
Fixpoint update_task_status_from (ts : list loc) (task_id : Z)
    (new_status : string) : M unit :=
  match ts with
  | [] => ret tt
  | l :: rest =>
      let! task := deref l in
      if (Task.id task =? task_id)%Z
      then update_task l (Task.set_status new_status)
      else update_task_status_from rest task_id new_status
  end.

Definition update_task_status (task_id : Z) (new_status : string) : M unit :=
  let! ts := get_tasks in
  update_task_status_from ts task_id new_status.

Definition handle_errors (l : loc) (error_message : string) : M unit :=
  let! task := deref l in
  logging ERROR ("Error in task " +:+ str_of_int (Task.id task) +:+ " ("
                 +:+ Task.description task +:+ "): " +:+ error_message) >>
  update_task l (Task.set_status "Error").

(** The body of the main loop for one task of the collection. *)
Definition main_loop_task (pick : nat) (l : loc) : M unit :=
  let! task := deref l in
  if (Task.status task =? "Pending")%string then assign_task pick l
  else if (Task.status task =? "Assigned")%string && Task.is_completed task
  then update_task_status (Task.id task) "Completed"
  else ret tt.

(** ** AIThread *)

Definition exn_message (e : exn) : string :=
  match e with
  | Exception msg => msg
  | _ => ""
  end.

(** One iteration of the [while True] loop of [AIThread.run] for the worker
    at position [w].  [fails] is the draw of [random.choice([True, False])],
    [start_time] and [end_time] are the two readings of [time.time()], in
    clock ticks. *)
Definition run_iteration (w : nat) (fails : bool) (start_time end_time : Z)
    : M unit :=
  let! self := get_ai w in
  match AI.tasks self with
  | [] => ret tt
  | l :: rest =>
      update_ai w (AI.set_tasks rest) >>
      update_ai w (AI.set_is_busy true) >>
      try_finally
        (try_except
           (let! task := deref l in
            logging INFO (AI.name self +:+ " is working on: "
                          +:+ Task.description task) >>
            (if fails then raise (Exception "Simulated execution error")
             else ret tt) >>
            update_task l (Task.set_is_completed true) >>
            update_task l (Task.set_status "Completed") >>
            logging INFO (AI.name self +:+ " has completed: "
                          +:+ Task.description task))
           (λ e, handle_errors l (exn_message e)))
        (update_ai w (AI.set_is_busy false) >>
         record_performance w l (end_time - start_time)%Z)
  end.

(** ** TaskManager: prioritisation *)

Record struct_time := mk_struct_time {
  tm_year : Z; tm_mon : Z; tm_mday : Z;
  tm_hour : Z; tm_min : Z; tm_sec : Z;
  tm_wday : Z; tm_yday : Z; tm_isdst : Z
}.

(** [a - b] on two [time.struct_time] values.  [struct_time] is a tuple
    type and defines no subtraction: the operator raises [TypeError]. *)
Definition struct_time_sub (a b : struct_time) : M struct_time :=
  raise TypeError.

Section Prioritizer.

(** [time.strptime(s, fmt)] of the standard library ([None]: the text does
    not match the format, [ValueError]) and the reading of
    [time.localtime()]. *)
Variable strptime : string → string → option struct_time.
Variable localtime : struct_time.

(** The body of the loop of [dynamic_prioritization]; an empty deadline
    and [None] are both false. *)
Definition prioritize (l : loc) : M unit :=
  let! task := deref l in
  if (Task.status task =? "Pending")%string then
    match Task.deadline task with
    | Some (String _ _ as deadline) =>
        let! parsed := match strptime deadline "%Y-%m-%d" with
                       | Some tm => ret tm
                       | None => raise ValueError
                       end in
        let! delta := struct_time_sub parsed localtime in
        let days_to_deadline := tm_yday delta in
        if (days_to_deadline <=? 2)%Z then update_task l (Task.set_priority 1)
        else if (days_to_deadline <=? 5)%Z then update_task l (Task.set_priority 2)
        else ret tt
    | _ => ret tt
    end
  else ret tt.

Definition dynamic_prioritization : M unit :=
  let! ts := get_tasks in
  for_each ts prioritize.

End Prioritizer.

(** ** TaskManager: persistence *)

Definition json_of_option_str (o : option string) : json :=
  match o with
  | Some s => JStr s
  | None => JNull
  end.

(** [json.dump] of [task.__dict__]: the attributes in the order
    [__init__] sets them.  A [Task] object is not JSON serializable, so a
    non-empty dependency list makes the encoder raise [TypeError]
    ([None] here). *)
Definition json_of_task (task : Task.t) : option json :=
  match Task.dependencies task with
  | [] =>
      Some (JDict [("id", JInt (Task.id task));
                   ("description", JStr (Task.description task));
                   ("priority", JInt (Task.priority task));
                   ("deadline", json_of_option_str (Task.deadline task));
                   ("dependencies", JList []);
                   ("status", JStr (Task.status task));
                   ("assigned_to", json_of_option_str (Task.assigned_to task));
                   ("is_completed", JBool (Task.is_completed task))])
  | _ :: _ => None
  end.

Fixpoint json_of_tasks (tasks : list Task.t) : option (list json) :=
  match tasks with
  | [] => Some []
  | task :: rest =>
      match json_of_task task, json_of_tasks rest with
      | Some j, Some js => Some (j :: js)
      | _, _ => None
      end
  end.

Fixpoint deref_all (ts : list loc) : M (list Task.t) :=
  match ts with
  | [] => ret []
  | l :: rest =>
      let! task := deref l in
      let! others := deref_all rest in
      ret (task :: others)
  end.

Definition write_file (filename : string) (d : file_data) : M unit :=
  λ st, (Return tt, set_files (<[filename := d]> (files st)) st).

(** [save_state]: [open(filename, 'w')] empties the file and [json.dump]
    writes the text piece by piece, so an encoder error leaves a truncated
    text behind. *)
Definition save_state (filename : string) : M unit :=
  let! ts := get_tasks in
  let! objs := deref_all ts in
  match json_of_tasks objs with
  | Some js =>
      write_file filename (JsonText (JList js)) >>
      logging INFO "Task manager state saved."
  | None =>
      write_file filename NotJson >>
      raise TypeError
  end.

Fixpoint assoc (key : string) (items : list (string * json)) : option json :=
  match items with
  | [] => None
  | (k, v) :: rest => if (k =? key)%string then Some v else assoc key rest
  end.

Definition json_truthy (j : json) : bool :=
  match j with
  | JNull => false
  | JBool b => b
  | JInt n => negb (n =? 0)%Z
  | JStr s => negb (s =? "")%string
  | JList items => negb (bool_decide (items = []))
  | JDict items => negb (bool_decide (items.*1 = []))
  end.

(** The parameters of [Task.__init__]. *)
Definition Task_params : list string :=
  ["id"; "description"; "priority"; "deadline"; "dependencies"].

(** [Task] called on the keyword arguments [task_data] (the double-star
    call of [load_state]): the argument must be a mapping, every key must
    name a parameter and the four parameters without a default must be
    there; each failure is a [TypeError].  With a value of another type
    than the field of [Task.t] has, or with a dependencies value that is
    true (a list of JSON values, which [__init__] keeps as it is), Python
    builds a task that the record cannot hold: the model answers
    [OutOfModel] there. *)
Definition Task_of_kwargs (task_data : json) : M Task.t :=
  match task_data with
  | JDict kw =>
      if forallb (λ k, bool_decide (k ∈ Task_params)) kw.*1 then
        match assoc "id" kw, assoc "description" kw,
              assoc "priority" kw, assoc "deadline" kw with
        | Some id, Some description, Some priority, Some deadline =>
            match id, description, priority, deadline,
                  from_option json_truthy false (assoc "dependencies" kw) with
            | JInt i, JStr d, JInt p, JNull, false =>
                ret (Task.init i d p None None)
            | JInt i, JStr d, JInt p, JStr dl, false =>
                ret (Task.init i d p (Some dl) None)
            | _, _, _, _, _ => out_of_model
            end
        | _, _, _, _ => raise TypeError
        end
      else raise TypeError
  | _ => raise TypeError
  end.

Fixpoint chars (s : string) : list json :=
  match s with
  | EmptyString => []
  | String c r => JStr (String c EmptyString) :: chars r
  end.

(** The values a [for] loop over a loaded JSON value goes through: the
    items of a list, the keys of an object, the characters of a string;
    the other values are not iterable. *)
Definition json_iter (j : json) : M (list json) :=
  match j with
  | JList items => ret items
  | JDict items => ret (JStr <$> items.*1)
  | JStr s => ret (chars s)
  | _ => raise TypeError
  end.

(** [open(filename, 'r')] followed by [json.load]. *)
Definition read_json (filename : string) : M json :=
  λ st,
    match files st !! filename with
    | None => (Raise FileNotFoundError, st)
    | Some NotJson => (Raise JSONDecodeError, st)
    | Some (JsonText j) => (Return j, st)
    end.

(** A new object in the store. *)
Definition alloc (task : Task.t) : M loc :=
  λ st, (Return (length (heap st)), set_heap (heap st ++ [task]) st).

(** [self.tasks.append(task)] *)
Definition append_task (l : loc) : M unit :=
  λ st,
    (Return tt,
     set_task_manager
       (TaskManager.mk (TaskManager.tasks (task_manager st) ++ [l])) st).

Definition load_state (filename : string) : M unit :=
  try_except
    (let! tasks := read_json filename in
     let! items := json_iter tasks in
     for_each items (λ task_data,
       let! task := Task_of_kwargs task_data in
       let! l := alloc task in
       append_task l) >>
     logging INFO "Task manager state loaded.")
    (λ e,
       match e with
       | FileNotFoundError =>
           logging WARNING "No saved state found. Starting fresh."
       | _ => raise e
       end).

(** ** The program's start *)

Definition state_file : string := "task_manager_state.json".

(** The global list [ais]. *)
Definition initial_ais : list AI.t :=
  [AI.init "Jexi" "Data Analyst"
     ["analyze data"; "predictive analysis"; "data cleaning"; "generate reports"];
   AI.init "Nova" "Task Executor"
     ["cross-platform execution"; "automation"; "trigger-based automation";
      "automated testing"];
   AI.init "Astra" "Research & Customer Support"
     ["market research"; "customer support"; "content curation"; "trend analysis"];
   AI.init "Sung" "Project Coordinator"
     ["task management"; "code execution"; "code review"; "documentation"]].

(** The state of a process that starts on the files [fs], before
    [load_state] runs. *)
Definition startup (fs : gmap string file_data) : state :=
  mkState [] initial_ais TaskManager.init fs [].

(** The four default tasks, created when nothing was loaded. *)
Definition default_tasks : M unit :=
  let! task1 := alloc (Task.init 1 "Analyze various datasets" 1 (Some "2024-09-01") None) in
  let! task2 := alloc (Task.init 2 "Execute system backup" 1 (Some "2024-08-31") None) in
  let! task3 := alloc (Task.init 3 "Conduct market research on competitors" 2
                         (Some "2024-09-15") (Some [task1])) in
  let! task4 := alloc (Task.init 4 "Review and optimize code for security" 2
                         (Some "2024-09-10") (Some [task2])) in
  λ st, (Return tt, set_task_manager (TaskManager.mk [task1; task2; task3; task4]) st).

Definition main_start : M unit :=
  load_state state_file >>
  let! ts := get_tasks in
  match ts with
  | [] => default_tasks
  | _ :: _ => ret tt
  end.

(** ** TaskManager: the dependency graph *)

(** The body of the [Digraph] that [visualize_task_dependencies] builds: a
    node with its name and label, an edge with its tail and head. *)
Inductive dot_item :=
| Node (name label : string)
| Edge (tail head : string).

(** The inner loop: [dot.edge(str(dep.id), str(task.id))]. *)
Fixpoint add_edges (dot : list dot_item) (deps : list loc) (task : Task.t)
    : M (list dot_item) :=
  match deps with
  | [] => ret dot
  | d :: rest =>
      let! dep := deref d in
      add_edges (dot ++ [Edge (str_of_int (Task.id dep)) (str_of_int (Task.id task))])
                rest task
  end.

(** The outer loop: [dot.node(str(task.id), task.description)], then the
    edges of the task. *)
Fixpoint add_nodes (dot : list dot_item) (ts : list loc) : M (list dot_item) :=
  match ts with
  | [] => ret dot
  | l :: rest =>
      let! task := deref l in
      let! dot := add_edges (dot ++ [Node (str_of_int (Task.id task))
                                          (Task.description task)])
                            (Task.dependencies task) task in
      add_nodes dot rest
  end.

(** [dot.render('task_dependencies', view=True)] saves the graph and runs
    the Graphviz programs on it.  What they do is not in the program: it is
    taken as the parameter [graphviz], which gives, for the graph and the
    files it finds, the files it leaves and the exception it raises, if
    any.  A renderer has no reference to a task or a worker. *)
Definition dot_render
    (graphviz : list dot_item → gmap string file_data
                → option exn * gmap string file_data)
    (dot : list dot_item) : M unit :=
  λ st,
    match graphviz dot (files st) with
    | (None, fs) => (Return tt, set_files fs st)
    | (Some e, fs) => (Raise e, set_files fs st)
    end.

Definition visualize_task_dependencies
    (graphviz : list dot_item → gmap string file_data
                → option exn * gmap string file_data) : M unit :=
  let! ts := get_tasks in
  let! dot := add_nodes [] ts in
  dot_render graphviz dot >>
  logging INFO "Task dependencies visualized.".

(** The graph as a function of the state: the edges into a task, one per
    dependency in the store, and the items of a list of tasks. *)
Definition edges_into (st : state) (task : Task.t) (deps : list loc)
    : list dot_item :=
  flat_map (λ d, match heap st !! d with
                 | Some dep => [Edge (str_of_int (Task.id dep))
                                     (str_of_int (Task.id task))]
                 | None => []
                 end) deps.

Definition graph_of (st : state) (ts : list loc) : list dot_item :=
  flat_map (λ l, match heap st !! l with
                 | Some task =>
                     Node (str_of_int (Task.id task)) (Task.description task)
                     :: edges_into st task (Task.dependencies task)
                 | None => []
                 end) ts.

(** ** The loops *)

(** The [for] loop of the main loop over the collection; [pick i] is the
    random draw available to the task at position [i]. *)
Fixpoint main_loop_tasks (pick : nat → nat) (i : nat) (ts : list loc) : M unit :=
  match ts with
  | [] => ret tt
  | l :: rest => main_loop_task (pick i) l >> main_loop_tasks pick (S i) rest
  end.

(** One pass of the [while True] of the main loop ([time.sleep] apart). *)
Definition main_loop_iteration (strptime : string → string → option struct_time)
    (localtime : struct_time)
    (graphviz : list dot_item → gmap string file_data
                → option exn * gmap string file_data)
    (pick : nat → nat) : M unit :=
  dynamic_prioritization strptime localtime >>
  (let! ts := get_tasks in main_loop_tasks pick 0 ts) >>
  visualize_task_dependencies graphviz >>
  save_state state_file.

(** Successive iterations of the [while True] of [AIThread.run], one per
    entry of [draws]: the simulated outcome and the two clock readings. *)
Definition run_iterations (w : nat) (draws : list (bool * (Z * Z))) : M unit :=
  for_each draws (λ d, run_iteration w d.1 d.2.1 d.2.2).

(** The test of the loop of [dynamic_prioritization]: the task is pending
    and its deadline is neither [None] nor empty, so the loop body goes on
    to the subtraction. *)
Definition reaches_subtraction (task : Task.t) : bool :=
  (Task.status task =? "Pending")%string
  && match Task.deadline task with
     | Some (String _ _) => true
     | _ => false
     end.

(** A task as [Task.__init__] leaves it when no dependency is given. *)
Definition newly_created (task : Task.t) : Prop :=
  Task.status task = "Pending"
  ∧ Task.assigned_to task = None
  ∧ Task.is_completed task = false
  ∧ Task.dependencies task = [].

(** The description of the task at a location (empty off the store). *)
Definition description_at (st : state) (l : loc) : string :=
  default "" (Task.description <$> heap st !! l).

(** ** Relations between states *)

(** A computation keeps [R] when its final state is related to its initial
    state, whatever its outcome. *)
Definition preserves (R : relation state) {A} (m : M A) : Prop :=
  ∀ st, R st (m st).2.

(** What no operation on an existing task changes. *)
Definition task_identity (task : Task.t)
    : Z * string * Z * option string * list loc :=
  (Task.id task, Task.description task, Task.priority task,
   Task.deadline task, Task.dependencies task).

(** The collection and the store hold the same objects, each with its
    identity, and no completion flag went from true to false. *)
Definition evolves (st st' : state) : Prop :=
  task_manager st' = task_manager st
  ∧ task_identity <$> heap st' = task_identity <$> heap st
  ∧ ∀ l task, heap st !! l = Some task → Task.is_completed task = true →
              ∃ task', heap st' !! l = Some task'
                       ∧ Task.is_completed task' = true.

(** What the manager leaves to the workers. *)
Definition worker_own (ai : AI.t)
    : string * string * list string * bool * list (string * Z) :=
  (AI.name ai, AI.role ai, AI.capabilities ai, AI.is_busy ai,
   AI.performance_record ai).

(** The workers are the same, with their own attributes, and every queue
    only got longer at its end. *)
Definition pushes_only (st st' : state) : Prop :=
  worker_own <$> ais st' = worker_own <$> ais st
  ∧ ∀ w ai, ais st !! w = Some ai →
            ∃ ai', ais st' !! w = Some ai' ∧ AI.tasks ai `prefix_of` AI.tasks ai'.

(** The operations of the task manager, from any state. *)
Inductive manager_step : state → state → Prop :=
| step_dynamic_prioritization strptime localtime st :
    manager_step st (dynamic_prioritization strptime localtime st).2
| step_assign_task pick l st :
    manager_step st (assign_task pick l st).2
| step_update_task_status task_id new_status st :
    manager_step st (update_task_status task_id new_status st).2
| step_handle_errors l error_message st :
    manager_step st (handle_errors l error_message st).2
| step_main_loop_task pick l st :
    manager_step st (main_loop_task pick l st).2
| step_visualize_task_dependencies graphviz st :
    manager_step st (visualize_task_dependencies graphviz st).2
| step_save_state filename st :
    manager_step st (save_state filename st).2.

(** The steps of the running program: the manager's operations and the
    iterations of the workers' loops, in any order. *)
Inductive step : state → state → Prop :=
| step_manager st st' :
    manager_step st st' → step st st'
| step_run_iteration w fails start_time end_time st :
    step st (run_iteration w fails start_time end_time st).2
| step_collaborate w other_ai l st :
    step st (collaborate w other_ai l st).2.

(** ** States used in the examples *)

(** The state the program reaches at its start when no file was saved. *)
Definition seeded : state := (main_start (startup ∅)).2.

(** A collection of one task without dependencies. *)
Definition single : state :=
  ((let! l := alloc (Task.init 1 "Analyze various datasets" 1
                       (Some "2024-09-01") None) in
    append_task l) (startup ∅)).2.

(** A collection of one pending task of priority 2 with a deadline. *)
Definition urgent : state :=
  ((let! l := alloc (Task.init 3 "Conduct market research on competitors" 2
                       (Some "2024-09-15") None) in
    append_task l) (startup ∅)).2.

(** Two tasks with the same id: the second is "Assigned" and has its
    completion flag set, as a worker leaves it between the two assignments
    that end a successful execution. *)
Definition twins : state :=
  mkState [Task.init 1 "Analyze data" 1 None None;
           Task.mk 1 "Data cleaning" 2 None [] "Assigned" (Some "Jexi") true]
          initial_ais (TaskManager.mk [0; 1]) ∅ [].

(** A process that starts on a state file written by hand: two objects,
    the second with a key that [Task] does not take. *)
Definition handwritten : state :=
  startup {[ state_file :=
               JsonText (JList [JDict [("id", JInt 7); ("description", JStr "Audit");
                                       ("priority", JInt 3); ("deadline", JNull)];
                                JDict [("id", JInt 8);
                                       ("status", JStr "Completed")]]) ]}.

(** A task that Jexi can take, before it is dispatched. *)
Definition submitted : state :=
  ((let! l := alloc (Task.init 1 "Analyze data" 1 None None) in
    append_task l) (startup ∅)).2.

(** Two tasks dispatched to Jexi, one after the other. *)
Definition queued : state :=
  ((let! a := alloc (Task.init 1 "Analyze data" 1 None None) in
    append_task a >>
    let! b := alloc (Task.init 2 "Data cleaning" 2 None None) in
    append_task b >>
    assign_task 0 a >>
    assign_task 0 b) (startup ∅)).2.

(** A task dispatched to Jexi, and a second task that depends on it. *)
Definition chained : state :=
  ((let! a := alloc (Task.init 1 "Analyze data" 1 None None) in
    append_task a >>
    let! b := alloc (Task.init 2 "Data cleaning" 2 None (Some [a])) in
    append_task b >>
    assign_task 0 a) (startup ∅)).2.

(** A task that was dispatched to Jexi, and then completed by it. *)
Definition dispatched : state :=
  ((let! l := alloc (Task.init 1 "Analyze data" 1 None None) in
    append_task l >>
    assign_task 0 l) (startup ∅)).2.

Definition finished : state := (run_iteration 0 false 0 3 dispatched).2.

(** * Properties *)

(** ** The model on concrete inputs *)

Example lower_mixed_case : lower "Analyze Data 42" = "analyze data 42".
Proof. reflexivity. Qed.

Example str_in_inside : str_in "market" "conduct market research" = true.
Proof. reflexivity. Qed.

Example str_in_absent : str_in "analyze data" "analyze various datasets" = false.
Proof. reflexivity. Qed.

(** With no saved file the program starts on the four default tasks. *)
Example main_start_default_tasks :
  TaskManager.tasks (task_manager seeded) = [0; 1; 2; 3]
  ∧ Task.description <$> heap seeded = ["Analyze various datasets";
                                         "Execute system backup";
                                         "Conduct market research on competitors";
                                         "Review and optimize code for security"]
  ∧ Task.dependencies <$> heap seeded = [[]; []; [0]; [1]]
  ∧ log seeded = [(WARNING, "No saved state found. Starting fresh.")].
Proof. repeat split; reflexivity. Qed.

(** A task whose lower-cased description is a capability of Jexi is
    dispatched to Jexi. *)
Example assign_task_dispatches :
  Task.status <$> heap dispatched !! 0 = Some "Assigned"
  ∧ Task.assigned_to <$> heap dispatched !! 0 = Some (Some "Jexi")
  ∧ AI.tasks <$> ais dispatched = [[0]; []; []; []]
  ∧ AI.is_busy <$> ais dispatched = [false; false; false; false]
  ∧ log dispatched = [(INFO, "Task 'Analyze data' assigned to Jexi.")].
Proof. repeat split; reflexivity. Qed.

(** The worker completes it. *)
Example run_iteration_completes :
  Task.status <$> heap finished !! 0 = Some "Completed"
  ∧ Task.is_completed <$> heap finished !! 0 = Some true
  ∧ AI.performance_record <$> ais finished !! 0 = Some [("Analyze data", 3%Z)]
  ∧ AI.tasks <$> ais finished !! 0 = Some [].
Proof. repeat split; reflexivity. Qed.

(** A failure is reported through [handle_errors]. *)
Example run_iteration_fails :
  let st := (run_iteration 0 true 0 3 dispatched).2 in
  Task.status <$> heap st !! 0 = Some "Error"
  ∧ Task.is_completed <$> heap st !! 0 = Some false
  ∧ log st = [(INFO, "Task 'Analyze data' assigned to Jexi.");
              (INFO, "Jexi is working on: Analyze data");
              (ERROR, "Error in task 1 (Analyze data): Simulated execution error")].
Proof. repeat split; reflexivity. Qed.

(** ** Steps of the monad *)

Lemma bind_Return {A B} (m : M A) (k : A → M B) st a st' :
  m st = (Return a, st') → bind m k st = k a st'.
Proof. intros H. unfold bind. by rewrite H. Qed.

Lemma deref_Some l st task :
  heap st !! l = Some task → deref l st = (Return task, st).
Proof. intros H. unfold deref. by rewrite H. Qed.

Lemma update_task_Some l f st task :
  heap st !! l = Some task →
  update_task l f st = (Return tt, set_heap (<[l := f task]> (heap st)) st).
Proof. intros H. unfold update_task. by rewrite H. Qed.

Lemma get_ai_Some w st ai :
  ais st !! w = Some ai → get_ai w st = (Return ai, st).
Proof. intros H. unfold get_ai. by rewrite H. Qed.

Lemma update_ai_Some w f st ai :
  ais st !! w = Some ai →
  update_ai w f st = (Return tt, set_ais (<[w := f ai]> (ais st)) st).
Proof. intros H. unfold update_ai. by rewrite H. Qed.

(** A loop whose body never changes the state does not change it. *)
Lemma for_each_state {A} (body : A → M unit) xs :
  (∀ x st, (body x st).2 = st) → ∀ st, (for_each xs body st).2 = st.
Proof.
  intros Hbody. induction xs as [|x rest IH]; intros st; [done|].
  simpl. unfold bind. specialize (Hbody x st).
  destruct (body x st) as [[[]| |] st1]; simpl in *; subst; [apply IH|done..].
Qed.

(** ** Readiness *)

Lemma all_completed_spec deps st :
  (∀ d, d ∈ deps → is_Some (heap st !! d)) →
  ∃ b, all_completed deps st = (Return b, st)
       ∧ (b = true ↔
          ∀ d, d ∈ deps →
               ∃ dep, heap st !! d = Some dep ∧ Task.is_completed dep = true).
Proof.
  induction deps as [|d rest IH]; intros Hclosed.
  - exists true. split; [done|]. split; [|done].
    intros _ d Hd. by apply elem_of_nil in Hd.
  - destruct (Hclosed d) as [dep Hdep]; [left|].
    destruct IH as (b & Hrun & Hb).
    { intros d' Hd'. apply Hclosed. by right. }
    simpl. rewrite (bind_Return _ _ _ _ _ (deref_Some _ _ _ Hdep)).
    destruct (Task.is_completed dep) eqn:Hflag.
    + exists b. split; [done|]. rewrite Hb. split.
      * intros Hrest d' [->|Hd']%elem_of_cons; eauto.
      * intros Hall d' Hd'. apply Hall. by right.
    + exists false. split; [done|]. split; [done|].
      intros Hall. destruct (Hall d) as (dep' & Hdep' & Hflag'); [left|].
      congruence.
Qed.

(** C5.  [is_ready_to_execute] returns, and it returns true exactly when
    every dependency of the task has its completion flag true; with no
    dependency it returns true. *)
Theorem is_ready_to_execute_iff st l task :
  heap st !! l = Some task →
  (∀ d, d ∈ Task.dependencies task → is_Some (heap st !! d)) →
  ∃ b, is_ready_to_execute l st = (Return b, st)
       ∧ (b = true ↔
          ∀ d, d ∈ Task.dependencies task →
               ∃ dep, heap st !! d = Some dep ∧ Task.is_completed dep = true)
       ∧ (Task.dependencies task = [] → b = true).
Proof.
  intros Htask Hclosed.
  destruct (all_completed_spec _ _ Hclosed) as (b & Hrun & Hb).
  exists b. unfold is_ready_to_execute.
  rewrite (bind_Return _ _ _ _ _ (deref_Some _ _ _ Htask)).
  split; [done|]. split; [done|].
  intros Hnil. apply Hb. rewrite Hnil. intros d Hd. by apply elem_of_nil in Hd.
Qed.

(** The third default task waits for the first one, which is not completed. *)
Lemma is_ready_to_execute_iff_witness :
  ∃ task,
    heap seeded !! 2 = Some task
    ∧ (∀ d, d ∈ Task.dependencies task → is_Some (heap seeded !! d))
    ∧ ∃ b, is_ready_to_execute 2 seeded = (Return b, seeded)
           ∧ (b = true ↔
              ∀ d, d ∈ Task.dependencies task →
                   ∃ dep, heap seeded !! d = Some dep
                          ∧ Task.is_completed dep = true)
           ∧ (Task.dependencies task = [] → b = true).
Proof.
  exists (Task.init 3 "Conduct market research on competitors" 2
            (Some "2024-09-15") (Some [0])).
  assert (Hclosed : ∀ d, d ∈ [0] → is_Some (heap seeded !! d)).
  { intros d Hd. apply list_elem_of_singleton in Hd. subst d.
    eexists. reflexivity. }
  split; [reflexivity|]. split; [exact Hclosed|].
  exact (is_ready_to_execute_iff seeded 2 _ eq_refl Hclosed).
Defined.

(** ** The candidate workers *)

Lemma suitable_true task ai :
  suitable task ai = true ↔
  AI.is_busy ai = false ∧ lower (Task.description task) ∈ AI.capabilities ai.
Proof.
  unfold suitable. rewrite andb_true_iff, bool_decide_eq_true, negb_true_iff.
  tauto.
Qed.

Lemma elem_of_suitable_from task pool : ∀ i w,
  w ∈ suitable_from task i pool ↔
  ∃ ai, i ≤ w ∧ pool !! (w - i) = Some ai ∧ suitable task ai = true.
Proof.
  induction pool as [|ai rest IH]; intros i w; simpl.
  - split; [by intros ?%elem_of_nil|]. by intros (? & _ & ? & _).
  - assert (Hrest : w ∈ suitable_from task (S i) rest ↔
                    ∃ ai', i < w ∧ rest !! (w - S i) = Some ai'
                           ∧ suitable task ai' = true).
    { rewrite IH. split; intros (ai' & ? & ? & ?); exists ai'; split; auto; lia. }
    assert (Hhere : ∀ ai', i < w → (ai :: rest) !! (w - i) = Some ai'
                                  ↔ rest !! (w - S i) = Some ai').
    { intros ai' Hlt. replace (w - i) with (S (w - S i)) by lia. done. }
    destruct (suitable task ai) eqn:Hs.
    + rewrite elem_of_cons, Hrest. split.
      * intros [->|(ai' & Hlt & Hlook & Hok)].
        -- exists ai. rewrite Nat.sub_diag. done.
        -- exists ai'. rewrite Hhere by done. split; [lia|done].
      * intros (ai' & Hle & Hlook & Hok).
        destruct (decide (w = i)) as [->|Hne]; [by left|right].
        exists ai'. rewrite <- Hhere by lia. split; [lia|done].
    + rewrite Hrest. split.
      * intros (ai' & Hlt & Hlook & Hok).
        exists ai'. rewrite Hhere by done. split; [lia|done].
      * intros (ai' & Hle & Hlook & Hok).
        destruct (decide (w = i)) as [->|Hne].
        -- rewrite Nat.sub_diag in Hlook. simpl in Hlook. congruence.
        -- exists ai'. rewrite <- Hhere by lia. split; [lia|done].
Qed.

(** C1, as the code has it.  The candidate workers of [assign_task] are
    exactly the workers whose busy flag is false and whose capability list
    holds the lower-cased description of the task as one of its elements. *)
Theorem suitable_ais_exact st task w :
  w ∈ suitable_ais st task ↔
  ∃ ai, ais st !! w = Some ai
        ∧ AI.is_busy ai = false
        ∧ lower (Task.description task) ∈ AI.capabilities ai.
Proof.
  unfold suitable_ais. rewrite elem_of_suitable_from. rewrite Nat.sub_0_r.
  split.
  - intros (ai & _ & Hlook & Hok). apply suitable_true in Hok. by exists ai.
  - intros (ai & Hlook & Hok). exists ai. rewrite suitable_true.
    split; [lia|done].
Qed.

(** C1 as stated fails.  At the program's start the pending task
    "Conduct market research on competitors" has no candidate, although the
    idle worker Astra has the capability "market research", which is a
    substring of the lower-cased description. *)
Lemma suitable_ais_not_substring :
  ∃ task ai,
    heap seeded !! 2 = Some task
    ∧ Task.status task = "Pending"
    ∧ ais seeded !! 2 = Some ai
    ∧ AI.is_busy ai = false
    ∧ "market research" ∈ AI.capabilities ai
    ∧ str_in (lower "market research") (lower (Task.description task)) = true
    ∧ 2 ∉ suitable_ais seeded task.
Proof.
  do 2 eexists. repeat split; try reflexivity.
  - apply list_elem_of_here.
  - intros H. vm_compute in H. by apply elem_of_nil in H.
Qed.

(** ** Dispatch *)

(** C6.  When a pending task is not dependency-ready, or has no candidate
    worker, [assign_task] returns and leaves the store of tasks and every
    worker as they were: the status stays "Pending", the assigned worker is
    unchanged and no queue receives the task. *)
Theorem assign_task_leaves_pending pick st l task ready :
  heap st !! l = Some task →
  Task.status task = "Pending" →
  is_ready_to_execute l st = (Return ready, st) →
  ready = false ∨ suitable_ais st task = [] →
  ∃ st', assign_task pick l st = (Return tt, st')
         ∧ Task.status <$> heap st' !! l = Some "Pending"
         ∧ Task.assigned_to <$> heap st' !! l = Some (Task.assigned_to task)
         ∧ (∀ w, AI.tasks <$> ais st' !! w = AI.tasks <$> ais st !! w)
         ∧ heap st' = heap st
         ∧ ais st' = ais st
         ∧ task_manager st' = task_manager st.
Proof.
  intros Htask Hstatus Hready Hcase.
  assert (Hgo : (match suitable_ais st task with
                 | [] => ret false
                 | _ :: _ => is_ready_to_execute l
                 end) st = (Return (ready && negb (bool_decide (suitable_ais st task = []))), st)).
  { destruct (suitable_ais st task) as [|w0 pool] eqn:Hpool.
    - by rewrite andb_false_r.
    - rewrite Hready. by rewrite andb_true_r. }
  assert (Hfalse : ready && negb (bool_decide (suitable_ais st task = [])) = false).
  { destruct Hcase as [->| ->]; [done|]. by rewrite andb_false_r. }
  rewrite Hfalse in Hgo. clear Hfalse.
  unfold assign_task.
  rewrite (bind_Return _ _ _ _ _ (deref_Some _ _ _ Htask)).
  unfold bind at 1. unfold bind at 1. rewrite Hgo.
  rewrite (bind_Return _ _ _ _ _ Hready).
  destruct (negb ready); eexists; (split; [reflexivity|]); simpl;
    rewrite Htask; simpl; rewrite Hstatus; done.
Qed.

(** At the program's start the first default task is ready, and it has no
    candidate worker. *)
Lemma assign_task_leaves_pending_witness :
  ∃ task,
    heap seeded !! 0 = Some task
    ∧ Task.status task = "Pending"
    ∧ is_ready_to_execute 0 seeded = (Return true, seeded)
    ∧ suitable_ais seeded task = []
    ∧ ∃ st', assign_task 0 0 seeded = (Return tt, st')
             ∧ Task.status <$> heap st' !! 0 = Some "Pending"
             ∧ Task.assigned_to <$> heap st' !! 0 = Some (Task.assigned_to task)
             ∧ (∀ w, AI.tasks <$> ais st' !! w = AI.tasks <$> ais seeded !! w)
             ∧ heap st' = heap seeded
             ∧ ais st' = ais seeded
             ∧ task_manager st' = task_manager seeded.
Proof.
  exists (Task.init 1 "Analyze various datasets" 1 (Some "2024-09-01") None).
  split; [reflexivity|]. split; [reflexivity|]. split; [reflexivity|].
  split; [reflexivity|].
  exact (assign_task_leaves_pending 0 seeded 0 _ true
           eq_refl eq_refl eq_refl (or_intror eq_refl)).
Defined.

(** ** Status updates *)

Lemma update_task_status_from_no_match ts task_id new_status st :
  (∀ l, l ∈ ts → ∃ task, heap st !! l = Some task ∧ Task.id task ≠ task_id) →
  update_task_status_from ts task_id new_status st = (Return tt, st).
Proof.
  induction ts as [|l rest IH]; intros Hno; [done|].
  destruct (Hno l) as (task & Htask & Hid); [left|].
  simpl. rewrite (bind_Return _ _ _ _ _ (deref_Some _ _ _ Htask)).
  apply Z.eqb_neq in Hid. rewrite Hid.
  apply IH. intros l' Hl'. apply Hno. by right.
Qed.

Lemma update_task_status_from_first pre l post task_id new_status st task :
  (∀ l', l' ∈ pre → ∃ t', heap st !! l' = Some t' ∧ Task.id t' ≠ task_id) →
  heap st !! l = Some task →
  Task.id task = task_id →
  update_task_status_from (pre ++ l :: post) task_id new_status st
  = (Return tt, set_heap (<[l := Task.set_status new_status task]> (heap st)) st).
Proof.
  intros Hpre Htask Hid.
  induction pre as [|l0 pre IH]; simpl.
  - rewrite (bind_Return _ _ _ _ _ (deref_Some _ _ _ Htask)).
    apply Z.eqb_eq in Hid. rewrite Hid. by apply update_task_Some.
  - destruct (Hpre l0) as (t0 & Ht0 & Hid0); [left|].
    rewrite (bind_Return _ _ _ _ _ (deref_Some _ _ _ Ht0)).
    apply Z.eqb_neq in Hid0. rewrite Hid0.
    apply IH. intros l' Hl'. apply Hpre. by right.
Qed.

(** Either no task of [ts] has the id, or the list splits at the first one
    that has it. *)
Lemma first_match_split ts task_id st :
  (∀ l, l ∈ ts → is_Some (heap st !! l)) →
  (∀ l, l ∈ ts → ∃ task, heap st !! l = Some task ∧ Task.id task ≠ task_id)
  ∨ ∃ pre l post task,
      ts = pre ++ l :: post
      ∧ (∀ l', l' ∈ pre → ∃ t', heap st !! l' = Some t' ∧ Task.id t' ≠ task_id)
      ∧ heap st !! l = Some task
      ∧ Task.id task = task_id.
Proof.
  induction ts as [|l rest IH]; intros Hclosed.
  - left. by intros l ?%elem_of_nil.
  - destruct (Hclosed l) as [task Htask]; [left|].
    destruct (decide (Task.id task = task_id)) as [Hid|Hid].
    + right. exists [], l, rest, task. repeat split; try done.
      by intros l' ?%elem_of_nil.
    + destruct IH as [Hno|(pre & l1 & post & t1 & -> & Hpre & Ht1 & Hid1)].
      * intros l' Hl'. apply Hclosed. by right.
      * left. intros l' [->|Hl']%elem_of_cons; eauto.
      * right. exists (l :: pre), l1, post, t1. repeat split; try done.
        intros l' [->|Hl']%elem_of_cons; eauto.
Qed.

(** C9.  When no task of the collection has the id, [update_task_status]
    returns without an exception and the whole state is as before. *)
Theorem update_task_status_unknown_id st task_id new_status :
  (∀ l, l ∈ TaskManager.tasks (task_manager st) →
        ∃ task, heap st !! l = Some task ∧ Task.id task ≠ task_id) →
  update_task_status task_id new_status st = (Return tt, st).
Proof.
  intros Hno. unfold update_task_status, get_tasks, bind.
  by apply update_task_status_from_no_match.
Qed.

(** No default task has the id 7. *)
Lemma update_task_status_unknown_id_witness :
  (∀ l, l ∈ TaskManager.tasks (task_manager seeded) →
        ∃ task, heap seeded !! l = Some task ∧ Task.id task ≠ 7%Z)
  ∧ update_task_status 7 "Completed" seeded = (Return tt, seeded).
Proof.
  assert (Hno : ∀ l, l ∈ TaskManager.tasks (task_manager seeded) →
                     ∃ task, heap seeded !! l = Some task ∧ Task.id task ≠ 7%Z).
  { intros l Hl. vm_compute in Hl.
    repeat (apply elem_of_cons in Hl as [->|Hl];
            [eexists; split; [reflexivity|discriminate]|]).
    by apply elem_of_nil in Hl. }
  split; [exact Hno|].
  exact (update_task_status_unknown_id seeded 7 "Completed" Hno).
Defined.

(** C10.  When some task of the collection has the id, [update_task_status]
    sets the status of the first such task, in collection order, and nothing
    else: the other fields of that task, every other task and all workers
    are as before. *)
Theorem update_task_status_first_match st task_id new_status pre l post task :
  TaskManager.tasks (task_manager st) = pre ++ l :: post →
  (∀ l', l' ∈ pre → ∃ t', heap st !! l' = Some t' ∧ Task.id t' ≠ task_id) →
  heap st !! l = Some task →
  Task.id task = task_id →
  ∃ st' task',
    update_task_status task_id new_status st = (Return tt, st')
    ∧ heap st' !! l = Some task'
    ∧ Task.status task' = new_status
    ∧ Task.id task' = Task.id task
    ∧ Task.description task' = Task.description task
    ∧ Task.priority task' = Task.priority task
    ∧ Task.deadline task' = Task.deadline task
    ∧ Task.dependencies task' = Task.dependencies task
    ∧ Task.assigned_to task' = Task.assigned_to task
    ∧ Task.is_completed task' = Task.is_completed task
    ∧ (∀ l', l' ≠ l → heap st' !! l' = heap st !! l')
    ∧ ais st' = ais st
    ∧ task_manager st' = task_manager st
    ∧ files st' = files st
    ∧ log st' = log st.
Proof.
  intros Hsplit Hpre Htask Hid.
  exists (set_heap (<[l := Task.set_status new_status task]> (heap st)) st),
         (Task.set_status new_status task).
  split.
  { unfold update_task_status, get_tasks, bind. rewrite Hsplit.
    by apply update_task_status_from_first. }
  split.
  { simpl. apply list_lookup_insert_eq. by eapply lookup_lt_Some. }
  repeat (split; [done|]).
  split; [|done].
  intros l' Hne. simpl. by apply list_lookup_insert_ne.
Qed.

(** The third default task has the id 3; the two before it do not. *)
Lemma update_task_status_first_match_witness :
  ∃ task,
    TaskManager.tasks (task_manager seeded) = [0; 1] ++ 2 :: [3]
    ∧ (∀ l', l' ∈ [0; 1] →
             ∃ t', heap seeded !! l' = Some t' ∧ Task.id t' ≠ 3%Z)
    ∧ heap seeded !! 2 = Some task
    ∧ Task.id task = 3%Z
    ∧ ∃ st' task',
        update_task_status 3 "Completed" seeded = (Return tt, st')
        ∧ heap st' !! 2 = Some task'
        ∧ Task.status task' = "Completed"
        ∧ Task.id task' = Task.id task
        ∧ Task.description task' = Task.description task
        ∧ Task.priority task' = Task.priority task
        ∧ Task.deadline task' = Task.deadline task
        ∧ Task.dependencies task' = Task.dependencies task
        ∧ Task.assigned_to task' = Task.assigned_to task
        ∧ Task.is_completed task' = Task.is_completed task
        ∧ (∀ l', l' ≠ 2 → heap st' !! l' = heap seeded !! l')
        ∧ ais st' = ais seeded
        ∧ task_manager st' = task_manager seeded
        ∧ files st' = files seeded
        ∧ log st' = log seeded.
Proof.
  exists (Task.init 3 "Conduct market research on competitors" 2
            (Some "2024-09-15") (Some [0])).
  assert (Hpre : ∀ l', l' ∈ [0; 1] →
                       ∃ t', heap seeded !! l' = Some t' ∧ Task.id t' ≠ 3%Z).
  { intros l' Hl'.
    repeat (apply elem_of_cons in Hl' as [->|Hl'];
            [eexists; split; [reflexivity|discriminate]|]).
    by apply elem_of_nil in Hl'. }
  split; [reflexivity|]. split; [exact Hpre|]. split; [reflexivity|].
  split; [reflexivity|].
  exact (update_task_status_first_match seeded 3 "Completed" [0; 1] 2 [3] _
           eq_refl Hpre eq_refl eq_refl).
Defined.

(** ** The status guard of the dispatcher *)

(** C4 as stated fails: [assign_task] does not look at the status.  Called
    on the completed task of [finished], it puts the task into Jexi's queue
    again and sets the status back to "Assigned". *)
Lemma assign_task_reassigns_completed :
  ∃ task st',
    heap finished !! 0 = Some task
    ∧ Task.status task = "Completed"
    ∧ AI.tasks <$> ais finished !! 0 = Some []
    ∧ assign_task 0 0 finished = (Return tt, st')
    ∧ Task.status <$> heap st' !! 0 = Some "Assigned"
    ∧ AI.tasks <$> ais st' !! 0 = Some [0].
Proof. do 2 eexists. repeat split; reflexivity. Qed.

(** C4, as the code has it.  The guard is in the main loop: its step for a
    task whose status is "Assigned", "Completed" or "Error" never reaches
    [assign_task].  The step returns; workers, collection, files and log are
    as before (no queue receives the task) and no task changes its assigned
    worker.  The store of tasks is as before too, with one exception: when
    the task is "Assigned" with its completion flag set, [update_task_status]
    sets to "Completed" the status of the first task of the collection, in
    collection order, that has the task's id (if the collection has one). *)
Theorem main_loop_task_guards_assign pick st l task :
  heap st !! l = Some task →
  Task.status task ∈ ["Assigned"; "Completed"; "Error"] →
  (∀ l', l' ∈ TaskManager.tasks (task_manager st) → is_Some (heap st !! l')) →
  ∃ st',
    main_loop_task pick l st = (Return tt, st')
    ∧ ais st' = ais st
    ∧ task_manager st' = task_manager st
    ∧ files st' = files st
    ∧ log st' = log st
    ∧ (∀ l', Task.assigned_to <$> heap st' !! l'
             = Task.assigned_to <$> heap st !! l')
    ∧ ((heap st' = heap st
        ∧ (Task.status task ≠ "Assigned"
           ∨ Task.is_completed task = false
           ∨ ∀ l', l' ∈ TaskManager.tasks (task_manager st) →
                   ∃ t', heap st !! l' = Some t' ∧ Task.id t' ≠ Task.id task))
       ∨ (Task.status task = "Assigned"
          ∧ Task.is_completed task = true
          ∧ ∃ pre l0 post t0,
              TaskManager.tasks (task_manager st) = pre ++ l0 :: post
              ∧ (∀ l', l' ∈ pre →
                       ∃ t', heap st !! l' = Some t' ∧ Task.id t' ≠ Task.id task)
              ∧ heap st !! l0 = Some t0
              ∧ Task.id t0 = Task.id task
              ∧ heap st' = <[l0 := Task.set_status "Completed" t0]> (heap st))).
Proof.
  intros Htask Hstatus Hclosed.
  unfold main_loop_task.
  rewrite (bind_Return _ _ _ _ _ (deref_Some _ _ _ Htask)).
  assert (Hnp : (Task.status task =? "Pending")%string = false).
  { apply String.eqb_neq. intros Heq. rewrite Heq in Hstatus.
    repeat (apply elem_of_cons in Hstatus as [?|Hstatus]; [discriminate|]).
    by apply elem_of_nil in Hstatus. }
  rewrite Hnp.
  destruct (Task.status task =? "Assigned")%string eqn:Has; cycle 1.
  { apply String.eqb_neq in Has. exists st. simpl.
    repeat (split; [done|]). left. split; [done|]. by left. }
  apply String.eqb_eq in Has.
  destruct (Task.is_completed task) eqn:Hdone; cycle 1.
  { exists st. simpl. repeat (split; [done|]). left. split; [done|].
    right. by left. }
  simpl. unfold update_task_status, get_tasks, bind.
  destruct (first_match_split _ (Task.id task) st Hclosed)
    as [Hno|(pre & l0 & post & t0 & Hsplit & Hpre & Ht0 & Hid)].
  - exists st. rewrite update_task_status_from_no_match by done.
    repeat (split; [done|]). left. split; [done|]. right. by right.
  - exists (set_heap (<[l0 := Task.set_status "Completed" t0]> (heap st)) st).
    rewrite Hsplit.
    rewrite (update_task_status_from_first pre l0 post _ _ st t0) by done.
    simpl. repeat (split; [done|]). split.
    + intros l'. destruct (decide (l0 = l')) as [->|Hne].
      * rewrite list_lookup_insert_eq by (by eapply lookup_lt_Some).
        by rewrite Ht0.
      * by rewrite list_lookup_insert_ne.
    + right. split; [done|]. split; [done|].
      exists pre, l0, post, t0. by rewrite <- Hsplit.
Qed.

(** The main loop's step for the second task of [twins], which is
    "Assigned" with its completion flag set: the status that changes is the
    one of the first task, which has the same id. *)
Lemma main_loop_task_guards_assign_witness :
  ∃ task st',
    heap twins !! 1 = Some task
    ∧ Task.status task ∈ ["Assigned"; "Completed"; "Error"]
    ∧ (∀ l', l' ∈ TaskManager.tasks (task_manager twins) →
             is_Some (heap twins !! l'))
    ∧ main_loop_task 0 1 twins = (Return tt, st')
    ∧ ais st' = ais twins
    ∧ task_manager st' = task_manager twins
    ∧ files st' = files twins
    ∧ log st' = log twins
    ∧ (∀ l', Task.assigned_to <$> heap st' !! l'
             = Task.assigned_to <$> heap twins !! l')
    ∧ ((heap st' = heap twins
        ∧ (Task.status task ≠ "Assigned"
           ∨ Task.is_completed task = false
           ∨ ∀ l', l' ∈ TaskManager.tasks (task_manager twins) →
                   ∃ t', heap twins !! l' = Some t' ∧ Task.id t' ≠ Task.id task))
       ∨ (Task.status task = "Assigned"
          ∧ Task.is_completed task = true
          ∧ ∃ pre l0 post t0,
              TaskManager.tasks (task_manager twins) = pre ++ l0 :: post
              ∧ (∀ l', l' ∈ pre →
                       ∃ t', heap twins !! l' = Some t'
                             ∧ Task.id t' ≠ Task.id task)
              ∧ heap twins !! l0 = Some t0
              ∧ Task.id t0 = Task.id task
              ∧ heap st' = <[l0 := Task.set_status "Completed" t0]>
                             (heap twins))).
Proof.
  assert (Hin : "Assigned" ∈ ["Assigned"; "Completed"; "Error"]) by left.
  assert (Hclosed : ∀ l', l' ∈ TaskManager.tasks (task_manager twins) →
                          is_Some (heap twins !! l')).
  { intros l' Hl'.
    repeat (apply elem_of_cons in Hl' as [->|Hl']; [eexists; reflexivity|]).
    by apply elem_of_nil in Hl'. }
  destruct (main_loop_task_guards_assign 0 twins 1
              (Task.mk 1 "Data cleaning" 2 None [] "Assigned" (Some "Jexi") true)
              eq_refl Hin Hclosed)
    as (st' & H).
  eexists _, st'. split; [reflexivity|]. split; [exact Hin|].
  split; [exact Hclosed|exact H].
Defined.

(** On [twins] the step marks the first task of the id, not the task it
    was called for. *)
Example main_loop_task_marks_first :
  Task.status <$> heap twins = ["Pending"; "Assigned"]
  ∧ Task.status <$> heap (main_loop_task 0 1 twins).2 = ["Completed"; "Assigned"].
Proof. split; reflexivity. Qed.

(** ** The worker loop *)

Lemma try_except_Return {A} (body : M A) handler st a st' :
  body st = (Return a, st') → try_except body handler st = (Return a, st').
Proof. intros H. unfold try_except. by rewrite H. Qed.

Lemma try_except_Raise {A} (body : M A) handler st e st' :
  body st = (Raise e, st') → try_except body handler st = handler e st'.
Proof. intros H. unfold try_except. by rewrite H. Qed.

Lemma try_finally_Return {A} (body : M A) fin st a st' st'' :
  body st = (Return a, st') →
  fin st' = (Return tt, st'') →
  try_finally body fin st = (Return a, st'').
Proof. intros Hb Hf. unfold try_finally. by rewrite Hb, Hf. Qed.

Lemma handle_errors_run l error_message st task :
  heap st !! l = Some task →
  ∃ st', handle_errors l error_message st = (Return tt, st')
         ∧ heap st' = <[l := Task.set_status "Error" task]> (heap st)
         ∧ ais st' = ais st.
Proof.
  intros Htask. unfold handle_errors.
  rewrite (bind_Return _ _ _ _ _ (deref_Some _ _ _ Htask)).
  unfold bind, logging, update_task. simpl. rewrite Htask. eauto.
Qed.

Lemma record_performance_run w l time_taken st ai task :
  ais st !! w = Some ai →
  heap st !! l = Some task →
  ∃ st', record_performance w l time_taken st = (Return tt, st')
         ∧ heap st' = heap st
         ∧ ais st' = <[w := AI.set_performance_record
                              (AI.performance_record ai
                               ++ [(Task.description task, time_taken)]) ai]>
                       (ais st).
Proof.
  intros Hai Htask. unfold record_performance.
  rewrite (bind_Return _ _ _ _ _ (deref_Some _ _ _ Htask)).
  unfold update_ai. rewrite Hai. eauto.
Qed.

(** The [try] block, with its handler: the task ends "Completed" with its
    flag set, or "Error" with its flag as it was. *)
Lemma run_try_block (fails : bool) who l st task :
  heap st !! l = Some task →
  ∃ st' task',
    try_except
      (let! task := deref l in
       logging INFO (who +:+ " is working on: " +:+ Task.description task) >>
       (if fails then raise (Exception "Simulated execution error")
        else ret tt) >>
       update_task l (Task.set_is_completed true) >>
       update_task l (Task.set_status "Completed") >>
       logging INFO (who +:+ " has completed: " +:+ Task.description task))
      (λ e, handle_errors l (exn_message e)) st = (Return tt, st')
    ∧ ais st' = ais st
    ∧ heap st' !! l = Some task'
    ∧ Task.description task' = Task.description task
    ∧ Task.status task' = (if fails then "Error" else "Completed")
    ∧ Task.is_completed task' = (if fails then Task.is_completed task else true).
Proof.
  intros Htask.
  assert (Hl : l < length (heap st)) by (by eapply lookup_lt_Some).
  destruct fails.
  - set (st1 := set_log (log st ++ [(INFO, who +:+ " is working on: "
                                           +:+ Task.description task)]) st).
    destruct (handle_errors_run l "Simulated execution error" st1 task Htask)
      as (st' & Hrun & Hheap & Hais).
    exists st', (Task.set_status "Error" task).
    split.
    { rewrite (try_except_Raise _ _ _ (Exception "Simulated execution error") st1);
        [exact Hrun|].
      rewrite (bind_Return _ _ _ _ _ (deref_Some _ _ _ Htask)). done. }
    rewrite Hheap, Hais. split; [done|]. split; [|done].
    by apply list_lookup_insert_eq.
  - eexists _, (Task.set_status "Completed" (Task.set_is_completed true task)).
    split.
    { apply try_except_Return.
      rewrite (bind_Return _ _ _ _ _ (deref_Some _ _ _ Htask)).
      unfold bind, logging, ret, update_task. simpl. rewrite Htask. simpl.
      rewrite list_lookup_insert_eq by done. reflexivity. }
    simpl. split; [done|]. split; [|done].
    rewrite list_insert_insert_eq. by apply list_lookup_insert_eq.
Qed.

(** C7.  An iteration of the worker loop that takes a task from the queue
    returns with the busy flag false and with exactly one new entry at the
    end of the performance record, the task's description with the elapsed
    time, whether the execution succeeds or fails. *)
Theorem run_iteration_resets_busy w fails start_time end_time st ai l rest task :
  ais st !! w = Some ai →
  AI.tasks ai = l :: rest →
  heap st !! l = Some task →
  ∃ st' ai' task',
    run_iteration w fails start_time end_time st = (Return tt, st')
    ∧ ais st' !! w = Some ai'
    ∧ AI.is_busy ai' = false
    ∧ AI.performance_record ai'
      = AI.performance_record ai ++ [(Task.description task, (end_time - start_time)%Z)]
    ∧ AI.tasks ai' = rest
    ∧ heap st' !! l = Some task'
    ∧ Task.status task' = (if fails then "Error" else "Completed")
    ∧ Task.is_completed task' = (if fails then Task.is_completed task else true).
Proof.
  intros Hai Hq Htask.
  assert (Hw : w < length (ais st)) by (by eapply lookup_lt_Some).
  unfold run_iteration.
  rewrite (bind_Return _ _ _ _ _ (get_ai_Some _ _ _ Hai)). rewrite Hq.
  rewrite (bind_Return _ _ _ _ _ (update_ai_Some _ _ _ _ Hai)).
  set (st1 := set_ais (<[w := AI.set_tasks rest ai]> (ais st)) st).
  assert (Hai1 : ais st1 !! w = Some (AI.set_tasks rest ai)).
  { by apply list_lookup_insert_eq. }
  rewrite (bind_Return _ _ _ _ _ (update_ai_Some _ _ _ _ Hai1)).
  set (st2 := set_ais _ st1).
  assert (Hai2 : ais st2 !! w = Some (AI.set_is_busy true (AI.set_tasks rest ai))).
  { apply list_lookup_insert_eq. subst st1. simpl. by rewrite length_insert. }
  destruct (run_try_block fails (AI.name ai) l st2 task Htask)
    as (st3 & task' & Hbody & Hais3 & Htask' & Hdesc & Hstatus & Hflag).
  rewrite <- Hais3 in Hai2.
  pose proof (update_ai_Some w (AI.set_is_busy false) st3 _ Hai2) as Hrel.
  set (st4 := set_ais _ st3) in Hrel.
  assert (Hai4 : ais st4 !! w
                 = Some (AI.set_is_busy false (AI.set_is_busy true (AI.set_tasks rest ai)))).
  { apply list_lookup_insert_eq. by eapply lookup_lt_Some. }
  destruct (record_performance_run w l (end_time - start_time)%Z st4 _ task'
              Hai4 Htask') as (st5 & Hrec & Hheap5 & Hais5).
  exists st5. eexists. exists task'.
  split.
  { eapply try_finally_Return; [exact Hbody|].
    rewrite (bind_Return _ _ _ _ _ Hrel). exact Hrec. }
  rewrite Hais5, Hheap5. split.
  { apply list_lookup_insert_eq. by eapply lookup_lt_Some. }
  simpl. rewrite Hdesc. done.
Qed.

(** A forced failure on the task in Jexi's queue. *)
Lemma run_iteration_resets_busy_witness :
  ∃ ai task st' ai' task',
    ais dispatched !! 0 = Some ai
    ∧ AI.tasks ai = [0]
    ∧ heap dispatched !! 0 = Some task
    ∧ run_iteration 0 true 10 13 dispatched = (Return tt, st')
    ∧ ais st' !! 0 = Some ai'
    ∧ AI.is_busy ai' = false
    ∧ AI.performance_record ai'
      = AI.performance_record ai ++ [(Task.description task, (13 - 10)%Z)]
    ∧ AI.tasks ai' = []
    ∧ heap st' !! 0 = Some task'
    ∧ Task.status task' = "Error"
    ∧ Task.is_completed task' = Task.is_completed task.
Proof.
  do 2 eexists.
  destruct (run_iteration_resets_busy 0 true 10 13 dispatched
              (AI.mk "Jexi" "Data Analyst"
                 ["analyze data"; "predictive analysis"; "data cleaning";
                  "generate reports"] [0] false [])
              0 []
              (Task.mk 1 "Analyze data" 1 None [] "Assigned" (Some "Jexi") false))
    as (st' & ai' & task' & H); [reflexivity..|].
  exists st', ai', task'.
  split; [reflexivity|]. split; [reflexivity|]. split; [reflexivity|]. exact H.
Defined.

(** ** Prioritisation *)

Section PrioritizerFacts.

Variable strptime : string → string → option struct_time.
Variable localtime : struct_time.

(** No path through the loop body changes the state: the two assignments
    to [priority] come after the subtraction, which raises. *)
Lemma prioritize_state l st : (prioritize strptime localtime l st).2 = st.
Proof.
  unfold prioritize, bind, deref.
  destruct (heap st !! l) as [task|]; [|done].
  destruct (Task.status task =? "Pending")%string; [|done].
  destruct (Task.deadline task) as [[|c deadline]|]; [done| |done].
  by destruct (strptime (String c deadline) "%Y-%m-%d").
Qed.

(** On a pending task with a non-empty deadline the loop body raises:
    [ValueError] from [time.strptime], or else [TypeError] from the
    subtraction. *)
Lemma prioritize_raises l st task c deadline :
  heap st !! l = Some task →
  Task.status task = "Pending" →
  Task.deadline task = Some (String c deadline) →
  ∃ e, prioritize strptime localtime l st = (Raise e, st)
       ∧ (e = TypeError ∨ e = ValueError).
Proof.
  intros Htask Hstatus Hdeadline.
  unfold prioritize.
  rewrite (bind_Return _ _ _ _ _ (deref_Some _ _ _ Htask)).
  rewrite Hstatus, Hdeadline. simpl. unfold bind.
  destruct (strptime (String c deadline) "%Y-%m-%d"); simpl; eauto.
Qed.

Lemma dynamic_prioritization_state st :
  (dynamic_prioritization strptime localtime st).2 = st.
Proof.
  unfold dynamic_prioritization, get_tasks, bind.
  apply for_each_state. apply prioritize_state.
Qed.

End PrioritizerFacts.

(** C8.  Prioritisation is idempotent: a second run, with the same clock,
    ends in the state of the first run with the same outcome; and no run
    changes the status or the dependencies of a task (nor, in this code,
    anything else: every run leaves the state as it found it). *)
Theorem dynamic_prioritization_idempotent strptime localtime st :
  let once := dynamic_prioritization strptime localtime st in
  let twice := dynamic_prioritization strptime localtime once.2 in
  twice.2 = once.2
  ∧ twice.1 = once.1
  ∧ (∀ l, Task.status <$> heap once.2 !! l = Task.status <$> heap st !! l)
  ∧ (∀ l, Task.dependencies <$> heap once.2 !! l
          = Task.dependencies <$> heap st !! l)
  ∧ (∀ l, Task.status <$> heap twice.2 !! l = Task.status <$> heap st !! l)
  ∧ (∀ l, Task.dependencies <$> heap twice.2 !! l
          = Task.dependencies <$> heap st !! l).
Proof.
  intros once twice. subst twice once.
  rewrite !dynamic_prioritization_state. done.
Qed.

(** C2 fails on the code.  Whatever the parser and the clock give, a run
    on [urgent] ends with an exception at the subtraction of the two
    [struct_time] values (or before it, in the parser) and the priority is
    still 2: also on the day before the deadline, when it should become 1. *)
Theorem dynamic_prioritization_raises strptime localtime :
  ∃ e, dynamic_prioritization strptime localtime urgent = (Raise e, urgent)
       ∧ (e = TypeError ∨ e = ValueError)
       ∧ Task.status <$> heap urgent !! 0 = Some "Pending"
       ∧ Task.deadline <$> heap urgent !! 0 = Some (Some "2024-09-15")
       ∧ Task.priority <$> heap urgent !! 0 = Some 2%Z.
Proof.
  destruct (prioritize_raises strptime localtime 0 urgent
              (Task.init 3 "Conduct market research on competitors" 2
                 (Some "2024-09-15") None) "2" "024-09-15")
    as (e & Hrun & He); [reflexivity..|].
  exists e. split.
  - unfold dynamic_prioritization, get_tasks, bind. simpl.
    unfold bind. by rewrite Hrun.
  - done.
Qed.

(** With a parser that accepts the deadline the exception is the
    [TypeError] of the subtraction. *)
Lemma dynamic_prioritization_TypeError tm localtime :
  dynamic_prioritization (λ _ _, Some tm) localtime urgent
  = (Raise TypeError, urgent).
Proof. reflexivity. Qed.

(** ** Persistence *)

(** Every object that [save_state] writes has the key "status", which is
    no parameter of [Task.__init__]. *)
Lemma Task_of_kwargs_saved task j st :
  json_of_task task = Some j →
  Task_of_kwargs j st = (Raise TypeError, st).
Proof.
  unfold json_of_task. destruct (Task.dependencies task); [|done].
  intros [= <-]. reflexivity.
Qed.

Lemma json_of_tasks_cons task rest js :
  json_of_tasks (task :: rest) = Some js →
  ∃ j js', js = j :: js' ∧ json_of_task task = Some j.
Proof.
  simpl. destruct (json_of_task task) as [j|]; [|done].
  destruct (json_of_tasks rest) as [js'|]; [|done].
  intros [= <-]. eauto.
Qed.

Lemma deref_all_run ts st r st' :
  deref_all ts st = (r, st') →
  st' = st
  ∧ match r with
    | Return objs => length objs = length ts
    | Raise _ => False
    | OutOfModel => True
    end.
Proof.
  revert r st'. induction ts as [|l rest IH]; intros r st'; simpl.
  - by intros [= <- <-].
  - unfold bind, deref. destruct (heap st !! l) as [task|]; [|by intros [= <- <-]].
    destruct (deref_all rest st) as [r0 st0] eqn:Hrest.
    destruct (IH _ _ eq_refl) as [-> Hr0].
    destruct r0 as [objs| |]; [|done|by intros [= <- <-]].
    intros [= <- <-]. simpl. by rewrite Hr0.
Qed.

(** A saved collection that is not empty is never read back: the process
    that starts on the files left by [save_state] ends [load_state] with an
    exception and an empty collection. *)
Lemma load_state_after_save_state filename st r st1 :
  TaskManager.tasks (task_manager st) ≠ [] →
  save_state filename st = (r, st1) →
  r ≠ OutOfModel →
  ∃ e st2,
    load_state filename (startup (files st1)) = (Raise e, st2)
    ∧ (e = TypeError ∨ e = JSONDecodeError)
    ∧ TaskManager.tasks (task_manager st2) = [].
Proof.
  intros Hne. unfold save_state, get_tasks, bind at 1.
  unfold bind at 1.
  destruct (deref_all (TaskManager.tasks (task_manager st)) st)
    as [r0 st0] eqn:Hobjs.
  destruct (deref_all_run _ _ _ _ Hobjs) as [-> Hr0].
  destruct r0 as [objs| |]; [|done|by intros [= <- <-]].
  destruct objs as [|task objs].
  { destruct (TaskManager.tasks (task_manager st)); done. }
  destruct (json_of_tasks (task :: objs)) as [js|] eqn:Hjs.
  - destruct (json_of_tasks_cons _ _ _ Hjs) as (j & js' & -> & Hj).
    intros [= <- <-] _. exists TypeError. eexists. split.
    + unfold load_state.
      rewrite (try_except_Raise _ _ _ TypeError (startup (<[filename:=JsonText (JList (j :: js'))]> (files st))));
        [reflexivity|].
      unfold bind at 1. unfold bind at 1. unfold bind at 1.
      unfold read_json. simpl. rewrite lookup_insert_eq. simpl.
      unfold bind at 1. unfold bind at 1.
      by rewrite (Task_of_kwargs_saved _ _ _ Hj).
    + split; [by left|done].
  - intros [= <- <-] _. exists JSONDecodeError. eexists. split.
    + unfold load_state.
      rewrite (try_except_Raise _ _ _ JSONDecodeError
                 (startup (<[filename:=NotJson]> (files st))));
        [reflexivity|].
      unfold bind at 1. unfold bind at 1. unfold read_json. simpl.
      by rewrite lookup_insert_eq.
    + split; [by right|done].
Qed.

(** C3 fails on the code.  [save_state] writes the one task of [single];
    the next process does not get it back: [load_state] raises [TypeError]
    at the call of [Task] and the collection stays empty. *)
Theorem save_state_load_state_single :
  ∃ st1 st2,
    TaskManager.tasks (task_manager single) = [0]
    ∧ save_state state_file single = (Return tt, st1)
    ∧ load_state state_file (startup (files st1)) = (Raise TypeError, st2)
    ∧ TaskManager.tasks (task_manager st2) = []
    ∧ heap st2 = [].
Proof. do 2 eexists. repeat split; reflexivity. Qed.

(** With a dependency in the collection already [save_state] raises, and
    the file it leaves cannot be read. *)
Lemma save_state_load_state_seeded :
  ∃ st1 st2,
    save_state state_file seeded = (Raise TypeError, st1)
    ∧ files st1 !! state_file = Some NotJson
    ∧ load_state state_file (startup (files st1)) = (Raise JSONDecodeError, st2)
    ∧ TaskManager.tasks (task_manager st2) = [].
Proof. do 2 eexists. repeat split; reflexivity. Qed.

(** The one collection that survives is the empty one. *)
Lemma save_state_load_state_empty :
  ∃ st1 st2,
    save_state state_file (startup ∅) = (Return tt, st1)
    ∧ load_state state_file (startup (files st1)) = (Return tt, st2)
    ∧ TaskManager.tasks (task_manager st2) = [].
Proof. do 2 eexists. repeat split; reflexivity. Qed.

(** * Further properties *)

Lemma bind_Raise {A B} (m : M A) (k : A → M B) st e st' :
  m st = (Raise e, st') → bind m k st = (Raise e, st').
Proof. intros H. unfold bind. by rewrite H. Qed.

(** ** What every operation keeps *)

Section Preserves.

Variable R : relation state.
Hypothesis R_refl : ∀ st, R st st.
Hypothesis R_trans : ∀ st1 st2 st3, R st1 st2 → R st2 st3 → R st1 st3.

Lemma preserves_reads {A} (m : M A) : (∀ st, (m st).2 = st) → preserves R m.
Proof. intros H st. rewrite H. apply R_refl. Qed.

Lemma preserves_ret {A} (a : A) : preserves R (ret a).
Proof. by apply preserves_reads. Qed.

Lemma preserves_raise {A} e : preserves R (@raise A e).
Proof. by apply preserves_reads. Qed.

Lemma preserves_out_of_model {A} : preserves R (@out_of_model A).
Proof. by apply preserves_reads. Qed.

Lemma preserves_deref l : preserves R (deref l).
Proof. apply preserves_reads. intros st. unfold deref. by destruct (heap st !! l). Qed.

Lemma preserves_get_ai w : preserves R (get_ai w).
Proof. apply preserves_reads. intros st. unfold get_ai. by destruct (ais st !! w). Qed.

Lemma preserves_get_tasks : preserves R get_tasks.
Proof. by apply preserves_reads. Qed.

Lemma preserves_bind {A B} (m : M A) (k : A → M B) :
  preserves R m → (∀ a, preserves R (k a)) → preserves R (bind m k).
Proof.
  intros Hm Hk st. unfold bind. specialize (Hm st).
  destruct (m st) as [[a|e|] st1]; simpl in *; [|done..].
  eapply R_trans; [exact Hm|apply Hk].
Qed.

Lemma preserves_try_except {A} (body : M A) handler :
  preserves R body → (∀ e, preserves R (handler e)) →
  preserves R (try_except body handler).
Proof.
  intros Hb Hh st. unfold try_except. specialize (Hb st).
  destruct (body st) as [[a|e|] st1]; simpl in *; [done| |done].
  eapply R_trans; [exact Hb|apply Hh].
Qed.

Lemma preserves_try_finally {A} (body : M A) fin :
  preserves R body → preserves R fin → preserves R (try_finally body fin).
Proof.
  intros Hb Hf st. unfold try_finally. specialize (Hb st).
  destruct (body st) as [[a|e|] st1]; simpl in *; [| |done];
    specialize (Hf st1); destruct (fin st1) as [[[]|e'|] st2]; simpl in *;
    by eapply R_trans.
Qed.

Lemma preserves_for_each {A} (body : A → M unit) xs :
  (∀ x, preserves R (body x)) → preserves R (for_each xs body).
Proof.
  intros Hbody. induction xs as [|x rest IH]; simpl.
  - apply preserves_ret.
  - apply preserves_bind; auto.
Qed.

Lemma preserves_dynamic_prioritization strptime localtime :
  preserves R (dynamic_prioritization strptime localtime).
Proof. apply preserves_reads. apply dynamic_prioritization_state. Qed.

Lemma preserves_all_completed deps : preserves R (all_completed deps).
Proof.
  induction deps as [|d rest IH]; simpl; [apply preserves_ret|].
  apply preserves_bind; [apply preserves_deref|].
  intros dep. destruct (Task.is_completed dep); [done|apply preserves_ret].
Qed.

Lemma preserves_is_ready_to_execute l : preserves R (is_ready_to_execute l).
Proof.
  apply preserves_bind; [apply preserves_deref|].
  intros task. apply preserves_all_completed.
Qed.

Lemma preserves_deref_all ts : preserves R (deref_all ts).
Proof.
  induction ts as [|l rest IH]; simpl; [apply preserves_ret|].
  apply preserves_bind; [apply preserves_deref|]. intros task.
  apply preserves_bind; [done|]. intros others. apply preserves_ret.
Qed.

(** The writes. *)
Hypothesis R_log : ∀ st g, R st (set_log g st).
Hypothesis R_files : ∀ st f, R st (set_files f st).
Hypothesis R_status : ∀ st l task s,
  heap st !! l = Some task →
  R st (set_heap (<[l := Task.set_status s task]> (heap st)) st).
Hypothesis R_assigned_to : ∀ st l task a,
  heap st !! l = Some task →
  R st (set_heap (<[l := Task.set_assigned_to a task]> (heap st)) st).
Hypothesis R_push : ∀ st w ai l,
  ais st !! w = Some ai →
  R st (set_ais (<[w := AI.set_tasks (AI.tasks ai ++ [l]) ai]> (ais st)) st).

Lemma preserves_logging lv msg : preserves R (logging lv msg).
Proof. intros st. apply R_log. Qed.

Lemma preserves_set_status l s : preserves R (update_task l (Task.set_status s)).
Proof.
  intros st. unfold update_task.
  destruct (heap st !! l) eqn:H; simpl; [by apply R_status|apply R_refl].
Qed.

Lemma preserves_set_assigned_to l a :
  preserves R (update_task l (Task.set_assigned_to a)).
Proof.
  intros st. unfold update_task.
  destruct (heap st !! l) eqn:H; simpl; [by apply R_assigned_to|apply R_refl].
Qed.

Lemma preserves_push w l :
  preserves R (update_ai w (λ a, AI.set_tasks (AI.tasks a ++ [l]) a)).
Proof.
  intros st. unfold update_ai.
  destruct (ais st !! w) eqn:H; simpl; [by apply R_push|apply R_refl].
Qed.

Lemma preserves_assign_task pick l : preserves R (assign_task pick l).
Proof.
  unfold assign_task.
  apply preserves_bind; [apply preserves_deref|]. intros task.
  apply preserves_bind; [by apply preserves_reads|]. intros pool.
  apply preserves_bind.
  { destruct pool; [apply preserves_ret|apply preserves_is_ready_to_execute]. }
  intros [|].
  - apply preserves_bind.
    { unfold random_choice. destruct (pool !! _);
        [apply preserves_ret|apply preserves_out_of_model]. }
    intros chosen_ai. apply preserves_bind; [apply preserves_get_ai|]. intros ai.
    apply preserves_bind; [apply preserves_push|]. intros _.
    apply preserves_bind; [apply preserves_set_assigned_to|]. intros _.
    apply preserves_bind; [apply preserves_set_status|]. intros _.
    apply preserves_logging.
  - apply preserves_bind; [apply preserves_is_ready_to_execute|].
    intros ready. destruct (negb ready); apply preserves_logging.
Qed.

Lemma preserves_update_task_status_from ts task_id new_status :
  preserves R (update_task_status_from ts task_id new_status).
Proof.
  induction ts as [|l rest IH]; simpl; [apply preserves_ret|].
  apply preserves_bind; [apply preserves_deref|]. intros task.
  destruct (Task.id task =? task_id)%Z; [apply preserves_set_status|done].
Qed.

Lemma preserves_update_task_status task_id new_status :
  preserves R (update_task_status task_id new_status).
Proof.
  apply preserves_bind; [apply preserves_get_tasks|]. intros ts.
  apply preserves_update_task_status_from.
Qed.

Lemma preserves_handle_errors l error_message :
  preserves R (handle_errors l error_message).
Proof.
  apply preserves_bind; [apply preserves_deref|]. intros task.
  apply preserves_bind; [apply preserves_logging|]. intros _.
  apply preserves_set_status.
Qed.

Lemma preserves_main_loop_task pick l : preserves R (main_loop_task pick l).
Proof.
  apply preserves_bind; [apply preserves_deref|]. intros task.
  destruct (Task.status task =? "Pending")%string; [apply preserves_assign_task|].
  destruct (_ && _); [apply preserves_update_task_status|apply preserves_ret].
Qed.

Lemma preserves_main_loop_tasks pick ts : ∀ i,
  preserves R (main_loop_tasks pick i ts).
Proof.
  induction ts as [|l rest IH]; intros i; simpl; [apply preserves_ret|].
  apply preserves_bind; [apply preserves_main_loop_task|]. intros _. apply IH.
Qed.

Lemma preserves_add_edges deps task : ∀ dot, preserves R (add_edges dot deps task).
Proof.
  induction deps as [|d rest IH]; intros dot; simpl; [apply preserves_ret|].
  apply preserves_bind; [apply preserves_deref|]. intros dep. apply IH.
Qed.

Lemma preserves_add_nodes ts : ∀ dot, preserves R (add_nodes dot ts).
Proof.
  induction ts as [|l rest IH]; intros dot; simpl; [apply preserves_ret|].
  apply preserves_bind; [apply preserves_deref|]. intros task.
  apply preserves_bind; [apply preserves_add_edges|]. intros dot'. apply IH.
Qed.

Lemma preserves_dot_render graphviz dot : preserves R (dot_render graphviz dot).
Proof.
  intros st. unfold dot_render.
  destruct (graphviz dot (files st)) as [[e|] fs]; apply R_files.
Qed.

Lemma preserves_visualize_task_dependencies graphviz :
  preserves R (visualize_task_dependencies graphviz).
Proof.
  apply preserves_bind; [apply preserves_get_tasks|]. intros ts.
  apply preserves_bind; [apply preserves_add_nodes|]. intros dot.
  apply preserves_bind; [apply preserves_dot_render|]. intros _.
  apply preserves_logging.
Qed.

Lemma preserves_save_state filename : preserves R (save_state filename).
Proof.
  apply preserves_bind; [apply preserves_get_tasks|]. intros ts.
  apply preserves_bind; [apply preserves_deref_all|]. intros objs.
  destruct (json_of_tasks objs).
  - apply preserves_bind; [|intros _; apply preserves_logging].
    intros st. apply R_files.
  - apply preserves_bind; [|intros _; apply preserves_raise].
    intros st. apply R_files.
Qed.

Lemma preserves_main_loop_iteration strptime localtime graphviz pick :
  preserves R (main_loop_iteration strptime localtime graphviz pick).
Proof.
  apply preserves_bind; [apply preserves_dynamic_prioritization|]. intros _.
  apply preserves_bind.
  { apply preserves_bind; [apply preserves_get_tasks|]. intros ts.
    apply preserves_main_loop_tasks. }
  intros _. apply preserves_bind; [apply preserves_visualize_task_dependencies|].
  intros _. apply preserves_save_state.
Qed.

Lemma manager_step_preserves st st' : manager_step st st' → R st st'.
Proof.
  destruct 1.
  - apply preserves_dynamic_prioritization.
  - apply preserves_assign_task.
  - apply preserves_update_task_status.
  - apply preserves_handle_errors.
  - apply preserves_main_loop_task.
  - apply preserves_visualize_task_dependencies.
  - apply preserves_save_state.
Qed.

(** The writes of the workers. *)
Hypothesis R_completed : ∀ st l task,
  heap st !! l = Some task →
  R st (set_heap (<[l := Task.set_is_completed true task]> (heap st)) st).
Hypothesis R_ai : ∀ st w ai f,
  ais st !! w = Some ai → R st (set_ais (<[w := f ai]> (ais st)) st).

Lemma preserves_update_ai w f : preserves R (update_ai w f).
Proof.
  intros st. unfold update_ai.
  destruct (ais st !! w) eqn:H; simpl; [by apply R_ai|apply R_refl].
Qed.

Lemma preserves_set_is_completed l :
  preserves R (update_task l (Task.set_is_completed true)).
Proof.
  intros st. unfold update_task.
  destruct (heap st !! l) eqn:H; simpl; [by apply R_completed|apply R_refl].
Qed.

Lemma preserves_record_performance w l time_taken :
  preserves R (record_performance w l time_taken).
Proof.
  apply preserves_bind; [apply preserves_deref|]. intros task.
  apply preserves_update_ai.
Qed.

Lemma preserves_run_iteration w fails start_time end_time :
  preserves R (run_iteration w fails start_time end_time).
Proof.
  apply preserves_bind; [apply preserves_get_ai|]. intros self.
  destruct (AI.tasks self) as [|l rest]; [apply preserves_ret|].
  apply preserves_bind; [apply preserves_update_ai|]. intros _.
  apply preserves_bind; [apply preserves_update_ai|]. intros _.
  apply preserves_try_finally.
  - apply preserves_try_except; [|intros e; apply preserves_handle_errors].
    apply preserves_bind; [apply preserves_deref|]. intros task.
    apply preserves_bind; [apply preserves_logging|]. intros _.
    apply preserves_bind.
    { destruct fails; [apply preserves_raise|apply preserves_ret]. }
    intros _. apply preserves_bind; [apply preserves_set_is_completed|]. intros _.
    apply preserves_bind; [apply preserves_set_status|]. intros _.
    apply preserves_logging.
  - apply preserves_bind; [apply preserves_update_ai|]. intros _.
    apply preserves_record_performance.
Qed.

Lemma preserves_collaborate w other_ai l : preserves R (collaborate w other_ai l).
Proof.
  apply preserves_bind; [apply preserves_get_ai|]. intros self.
  apply preserves_bind; [apply preserves_get_ai|]. intros other.
  apply preserves_bind; [apply preserves_deref|]. intros task.
  apply preserves_bind; [apply preserves_logging|]. intros _.
  apply preserves_update_ai.
Qed.

Lemma step_preserves st st' : step st st' → R st st'.
Proof.
  destruct 1 as [st st' Hm| |].
  - by apply manager_step_preserves.
  - apply preserves_run_iteration.
  - apply preserves_collaborate.
Qed.

Lemma rtc_step_preserves st st' : rtc step st st' → R st st'.
Proof.
  induction 1 as [|st1 st2 st3 Hstep _ IH]; [apply R_refl|].
  eapply R_trans; [by apply step_preserves|exact IH].
Qed.

Lemma rtc_manager_step_preserves st st' : rtc manager_step st st' → R st st'.
Proof.
  induction 1 as [|st1 st2 st3 Hstep _ IH]; [apply R_refl|].
  eapply R_trans; [by apply manager_step_preserves|exact IH].
Qed.

End Preserves.

(** [evolves] and [pushes_only] are preorders that the writes respect. *)

Lemma evolves_refl st : evolves st st.
Proof. split; [done|]. split; [done|]. eauto. Qed.

Lemma evolves_trans st1 st2 st3 : evolves st1 st2 → evolves st2 st3 → evolves st1 st3.
Proof.
  intros (Hm1 & Hid1 & Hc1) (Hm2 & Hid2 & Hc2).
  split; [congruence|]. split; [congruence|].
  intros l task Htask Hdone.
  destruct (Hc1 _ _ Htask Hdone) as (task2 & Htask2 & Hdone2). eauto.
Qed.

Lemma evolves_same_heap st st' :
  heap st' = heap st → task_manager st' = task_manager st → evolves st st'.
Proof. intros Hh Hm. split; [done|]. rewrite Hh. split; [done|]. eauto. Qed.

Lemma evolves_update st l task f :
  heap st !! l = Some task →
  task_identity (f task) = task_identity task →
  (Task.is_completed task = true → Task.is_completed (f task) = true) →
  evolves st (set_heap (<[l := f task]> (heap st)) st).
Proof.
  intros Htask Hid Hdone. split; [done|]. split; simpl.
  - rewrite list_fmap_insert. apply list_insert_id.
    by rewrite list_lookup_fmap, Htask, Hid.
  - intros l' task' Htask' Hdone'.
    destruct (decide (l = l')) as [->|Hne].
    + rewrite list_lookup_insert_eq by (by eapply lookup_lt_Some).
      eexists. split; [done|]. apply Hdone. congruence.
    + rewrite list_lookup_insert_ne by done. eauto.
Qed.

Lemma pushes_only_refl st : pushes_only st st.
Proof. split; [done|]. intros w ai Hai. by exists ai. Qed.

Lemma pushes_only_trans st1 st2 st3 :
  pushes_only st1 st2 → pushes_only st2 st3 → pushes_only st1 st3.
Proof.
  intros (Hown1 & Hq1) (Hown2 & Hq2). split; [congruence|].
  intros w ai Hai.
  destruct (Hq1 _ _ Hai) as (ai2 & Hai2 & Hpre2).
  destruct (Hq2 _ _ Hai2) as (ai3 & Hai3 & Hpre3).
  exists ai3. split; [done|]. by etrans.
Qed.

Lemma pushes_only_same_ais st st' : ais st' = ais st → pushes_only st st'.
Proof. intros H. unfold pushes_only. rewrite H. split; [done|]. eauto. Qed.

Lemma pushes_only_push st w ai l :
  ais st !! w = Some ai →
  pushes_only st (set_ais (<[w := AI.set_tasks (AI.tasks ai ++ [l]) ai]> (ais st)) st).
Proof.
  intros Hai. split; simpl.
  - rewrite list_fmap_insert. apply list_insert_id.
    by rewrite list_lookup_fmap, Hai.
  - intros w' ai' Hai'.
    destruct (decide (w = w')) as [->|Hne].
    + rewrite list_lookup_insert_eq by (by eapply lookup_lt_Some).
      eexists. split; [done|]. simpl.
      replace ai' with ai by congruence. by apply prefix_app_r.
    + rewrite list_lookup_insert_ne by done. eauto.
Qed.

Lemma rtc_step_evolves st st' : rtc step st st' → evolves st st'.
Proof.
  apply rtc_step_preserves.
  - apply evolves_refl.
  - apply evolves_trans.
  - intros. by apply evolves_same_heap.
  - intros. by apply evolves_same_heap.
  - intros. by apply (evolves_update _ _ _ (Task.set_status s)).
  - intros. by apply (evolves_update _ _ _ (Task.set_assigned_to a)).
  - intros. by apply evolves_same_heap.
  - intros. by apply (evolves_update _ _ _ (Task.set_is_completed true)).
  - intros. by apply evolves_same_heap.
Qed.

Lemma rtc_manager_step_pushes_only st st' :
  rtc manager_step st st' → pushes_only st st'.
Proof.
  apply rtc_manager_step_preserves.
  - apply pushes_only_refl.
  - apply pushes_only_trans.
  - intros. by apply pushes_only_same_ais.
  - intros. by apply pushes_only_same_ais.
  - intros. by apply pushes_only_same_ais.
  - intros. by apply pushes_only_same_ais.
  - intros. by apply pushes_only_push.
Qed.

Lemma evolves_lookup st st' l task :
  evolves st st' →
  heap st !! l = Some task →
  ∃ task', heap st' !! l = Some task'
           ∧ task_identity task' = task_identity task
           ∧ (Task.is_completed task = true → Task.is_completed task' = true).
Proof.
  intros (Hm & Hid & Hdone) Htask.
  assert (Hl : task_identity <$> heap st' !! l = Some (task_identity task)).
  { rewrite <- list_lookup_fmap, Hid, list_lookup_fmap, Htask. done. }
  destruct (heap st' !! l) as [task'|] eqn:Htask'; [|done].
  exists task'. split; [done|]. split; [simpl in Hl; congruence|].
  intros Hc. destruct (Hdone _ _ Htask Hc) as (t2 & Ht2 & Hc2). congruence.
Qed.

Lemma pushes_only_lookup st st' w ai :
  pushes_only st st' →
  ais st !! w = Some ai →
  ∃ ai', ais st' !! w = Some ai'
         ∧ worker_own ai' = worker_own ai
         ∧ AI.tasks ai `prefix_of` AI.tasks ai'.
Proof.
  intros (Hown & Hq) Hai.
  destruct (Hq _ _ Hai) as (ai' & Hai' & Hpre).
  exists ai'. split; [done|]. split; [|done].
  apply (f_equal (λ xs, xs !! w)) in Hown.
  rewrite !list_lookup_fmap, Hai, Hai' in Hown. simpl in Hown. congruence.
Qed.

(** X1.  Whatever operations of the task manager run, in any number and
    order, every worker keeps its name, role, capabilities, busy flag and
    performance record, and its queue only grows at the end: the manager
    pushes tasks and touches nothing else of a worker. *)
Theorem manager_steps_push_only st st' w ai :
  rtc manager_step st st' →
  ais st !! w = Some ai →
  length (ais st') = length (ais st)
  ∧ ∃ ai', ais st' !! w = Some ai'
           ∧ AI.name ai' = AI.name ai
           ∧ AI.role ai' = AI.role ai
           ∧ AI.capabilities ai' = AI.capabilities ai
           ∧ AI.is_busy ai' = AI.is_busy ai
           ∧ AI.performance_record ai' = AI.performance_record ai
           ∧ AI.tasks ai `prefix_of` AI.tasks ai'.
Proof.
  intros Hsteps Hai.
  pose proof (rtc_manager_step_pushes_only _ _ Hsteps) as Hpush.
  split.
  { destruct Hpush as [Hown _].
    apply (f_equal length) in Hown. by rewrite !length_fmap in Hown. }
  destruct (pushes_only_lookup _ _ _ _ Hpush Hai) as (ai' & Hai' & Hw & Hpre).
  exists ai'. split; [done|].
  unfold worker_own in Hw. injection Hw as -> -> -> -> ->. done.
Qed.

(** X2.  Whatever steps the program takes (operations of the manager,
    iterations of the worker loops, [collaborate]), the collection and the
    number of task objects stay the same and every task keeps its id,
    description, priority, deadline and dependencies; a completion flag
    that is true stays true. *)
Theorem steps_keep_task_identity st st' l task :
  rtc step st st' →
  heap st !! l = Some task →
  task_manager st' = task_manager st
  ∧ length (heap st') = length (heap st)
  ∧ ∃ task', heap st' !! l = Some task'
             ∧ Task.id task' = Task.id task
             ∧ Task.description task' = Task.description task
             ∧ Task.priority task' = Task.priority task
             ∧ Task.deadline task' = Task.deadline task
             ∧ Task.dependencies task' = Task.dependencies task
             ∧ (Task.is_completed task = true → Task.is_completed task' = true).
Proof.
  intros Hsteps Htask.
  pose proof (rtc_step_evolves _ _ Hsteps) as Hev.
  destruct (evolves_lookup _ _ _ _ Hev Htask) as (task' & Htask' & Hid & Hc).
  destruct Hev as (Hm & Hids & _).
  split; [done|]. split.
  { apply (f_equal length) in Hids. by rewrite !length_fmap in Hids. }
  exists task'. split; [done|].
  unfold task_identity in Hid. injection Hid as -> -> -> -> ->. done.
Qed.

(** ** Readiness over time *)

Lemma all_completed_true_inv deps st st1 :
  all_completed deps st = (Return true, st1) →
  ∀ d, d ∈ deps →
       ∃ dep, heap st !! d = Some dep ∧ Task.is_completed dep = true.
Proof.
  induction deps as [|d rest IH]; simpl.
  - intros _ d ?%elem_of_nil. done.
  - unfold bind, deref. destruct (heap st !! d) as [dep|] eqn:Hdep; [|done].
    destruct (Task.is_completed dep) eqn:Hflag; [|done].
    intros Hrest d' [->|Hd']%elem_of_cons; eauto.
Qed.

Lemma all_completed_true_intro deps st :
  (∀ d, d ∈ deps →
        ∃ dep, heap st !! d = Some dep ∧ Task.is_completed dep = true) →
  all_completed deps st = (Return true, st).
Proof.
  induction deps as [|d rest IH]; intros Hall; simpl; [done|].
  destruct (Hall d) as (dep & Hdep & Hflag); [left|].
  rewrite (bind_Return _ _ _ _ _ (deref_Some _ _ _ Hdep)), Hflag.
  apply IH. intros d' Hd'. apply Hall. by right.
Qed.

Lemma evolves_ready st st' l :
  evolves st st' →
  is_ready_to_execute l st = (Return true, st) →
  is_ready_to_execute l st' = (Return true, st').
Proof.
  intros Hev. unfold is_ready_to_execute, bind at 1, deref at 1.
  destruct (heap st !! l) as [task|] eqn:Htask; [|done].
  intros Hready.
  destruct (evolves_lookup _ _ _ _ Hev Htask) as (task' & Htask' & Hid & _).
  rewrite (bind_Return _ _ _ _ _ (deref_Some _ _ _ Htask')).
  assert (Hdeps : Task.dependencies task' = Task.dependencies task).
  { unfold task_identity in Hid. congruence. }
  rewrite Hdeps. apply all_completed_true_intro. intros d Hd.
  destruct (all_completed_true_inv _ _ _ Hready d Hd) as (dep & Hdep & Hflag).
  destruct (evolves_lookup _ _ _ _ Hev Hdep) as (dep' & Hdep' & _ & Hc). eauto.
Qed.

(** X3.  Readiness is never lost: a task that is ready to execute stays
    ready whatever steps the program takes afterwards. *)
Theorem readiness_is_stable st st' l :
  rtc step st st' →
  is_ready_to_execute l st = (Return true, st) →
  is_ready_to_execute l st' = (Return true, st').
Proof. intros Hsteps. apply evolves_ready. by apply rtc_step_evolves. Qed.

(** ** A dispatch *)

Lemma suitable_from_own task pool pool' : ∀ i,
  worker_own <$> pool' = worker_own <$> pool →
  suitable_from task i pool' = suitable_from task i pool.
Proof.
  revert pool'. induction pool as [|ai rest IH]; intros [|ai' rest'] i Hown;
    try done.
  simpl in Hown. injection Hown as _ _ Hcaps Hbusy _ Hrest. simpl.
  assert (Hs : suitable task ai' = suitable task ai).
  { unfold suitable. by rewrite Hcaps, Hbusy. }
  rewrite Hs, (IH rest' (S i) Hrest). done.
Qed.

Lemma suitable_from_description task task' pool : ∀ i,
  Task.description task' = Task.description task →
  suitable_from task' i pool = suitable_from task i pool.
Proof.
  intros i Hd. revert i. induction pool as [|ai rest IH]; intros i; [done|].
  simpl. unfold suitable. by rewrite Hd, IH.
Qed.

Lemma random_choice_Some pick (xs : list nat) :
  xs ≠ [] → ∃ x, xs !! (pick mod length xs) = Some x.
Proof.
  intros Hne. apply lookup_lt_is_Some_2.
  apply Nat.mod_upper_bound. by destruct xs.
Qed.

(** The dispatching branch of [assign_task]. *)
Lemma assign_task_dispatch pick st l task w ai :
  heap st !! l = Some task →
  is_ready_to_execute l st = (Return true, st) →
  suitable_ais st task !! (pick mod length (suitable_ais st task)) = Some w →
  ais st !! w = Some ai →
  ∃ st',
    assign_task pick l st = (Return tt, st')
    ∧ heap st' = <[l := Task.set_status "Assigned"
                          (Task.set_assigned_to (Some (AI.name ai)) task)]> (heap st)
    ∧ ais st' = <[w := AI.set_tasks (AI.tasks ai ++ [l]) ai]> (ais st)
    ∧ task_manager st' = task_manager st
    ∧ files st' = files st
    ∧ log st' = log st ++ [(INFO, "Task '" +:+ Task.description task
                                  +:+ "' assigned to " +:+ AI.name ai +:+ ".")].
Proof.
  intros Htask Hready Hpick Hai.
  assert (Hl : l < length (heap st)) by (by eapply lookup_lt_Some).
  unfold assign_task.
  rewrite (bind_Return _ _ _ _ _ (deref_Some _ _ _ Htask)).
  unfold bind at 1. unfold bind at 1.
  destruct (suitable_ais st task) as [|w0 pool] eqn:Hpool; [done|].
  rewrite Hready.
  unfold bind at 1. unfold random_choice. rewrite Hpick. unfold ret at 1.
  rewrite (bind_Return _ _ _ _ _ (get_ai_Some _ _ _ Hai)).
  rewrite (bind_Return _ _ _ _ _ (update_ai_Some _ _ _ _ Hai)).
  unfold bind, update_task, logging. simpl. rewrite Htask. simpl.
  rewrite list_lookup_insert_eq by done. simpl.
  rewrite list_insert_insert_eq. eauto 10.
Qed.

Lemma is_ready_to_execute_cases l st :
  is_ready_to_execute l st = (OutOfModel, st)
  ∨ ∃ ready, is_ready_to_execute l st = (Return ready, st).
Proof.
  unfold is_ready_to_execute, bind, deref.
  destruct (heap st !! l) as [task|]; [|by left].
  generalize (Task.dependencies task). intros deps.
  induction deps as [|d rest IH]; simpl; [right; by exists true|].
  unfold bind, deref. destruct (heap st !! d) as [dep|]; [|by left].
  destruct (Task.is_completed dep); [done|]. right. by exists false.
Qed.

(** Every call of [assign_task] either stops at a reference outside the
    store, or only writes a log record, or dispatches. *)
Lemma assign_task_cases pick l st :
  assign_task pick l st = (OutOfModel, st)
  ∨ (∃ record, assign_task pick l st = (Return tt, set_log (log st ++ [record]) st))
  ∨ (∃ task w ai st',
       heap st !! l = Some task
       ∧ ais st !! w = Some ai
       ∧ assign_task pick l st = (Return tt, st')
       ∧ heap st' = <[l := Task.set_status "Assigned"
                             (Task.set_assigned_to (Some (AI.name ai)) task)]> (heap st)
       ∧ ais st' = <[w := AI.set_tasks (AI.tasks ai ++ [l]) ai]> (ais st)).
Proof.
  destruct (heap st !! l) as [task|] eqn:Htask; cycle 1.
  { left. unfold assign_task. unfold bind, deref. by rewrite Htask. }
  destruct (is_ready_to_execute_cases l st) as [Hoom|[ready Hready]].
  - destruct (suitable_ais st task) as [|w0 pool] eqn:Hpool.
    + left. unfold assign_task.
      rewrite (bind_Return _ _ _ _ _ (deref_Some _ _ _ Htask)).
      unfold bind at 1. unfold bind at 1. rewrite Hpool. unfold ret at 1.
      unfold bind. by rewrite Hoom.
    + left. unfold assign_task.
      rewrite (bind_Return _ _ _ _ _ (deref_Some _ _ _ Htask)).
      unfold bind at 1. unfold bind at 1. rewrite Hpool. by rewrite Hoom.
  - destruct (decide (ready = true ∧ suitable_ais st task ≠ [])) as [[-> Hne]|Hno].
    + right. right.
      destruct (random_choice_Some pick _ Hne) as [w Hw].
      assert (Hin : w ∈ suitable_ais st task) by (by eapply list_elem_of_lookup_2).
      apply elem_of_suitable_from in Hin as (ai & _ & Hai & _).
      rewrite Nat.sub_0_r in Hai.
      destruct (assign_task_dispatch pick st l task w ai Htask Hready Hw Hai)
        as (st' & Hrun & Hheap & Hais & _).
      by exists task, w, ai, st'.
    + right. left. unfold assign_task.
      rewrite (bind_Return _ _ _ _ _ (deref_Some _ _ _ Htask)).
      unfold bind at 1. unfold bind at 1.
      destruct (suitable_ais st task) as [|w0 pool] eqn:Hpool.
      * unfold ret at 1. rewrite (bind_Return _ _ _ _ _ Hready).
        destruct (negb ready); eexists; reflexivity.
      * rewrite Hready. destruct ready.
        { exfalso. apply Hno. done. }
        rewrite (bind_Return _ _ _ _ _ Hready). eexists; reflexivity.
Qed.

(** The branch of [assign_task] for a task that is not ready. *)
Lemma assign_task_not_ready pick st l task :
  heap st !! l = Some task →
  is_ready_to_execute l st = (Return false, st) →
  assign_task pick l st
  = (Return tt,
     set_log (log st ++ [(INFO, "Task '" +:+ Task.description task
                                +:+ "' is waiting for dependencies.")]) st).
Proof.
  intros Htask Hready. unfold assign_task.
  rewrite (bind_Return _ _ _ _ _ (deref_Some _ _ _ Htask)).
  unfold bind at 1. unfold bind at 1.
  destruct (suitable_ais st task) as [|w0 pool].
  - unfold ret at 1. by rewrite (bind_Return _ _ _ _ _ Hready).
  - rewrite Hready. by rewrite (bind_Return _ _ _ _ _ Hready).
Qed.

(** X4.  A dispatch.  When the task is ready and has candidates,
    [assign_task] returns having chosen the candidate at the drawn position:
    the task goes to the end of that worker's queue, its assigned worker is
    that worker's name and its status is "Assigned".  The worker's busy flag
    is not set, and no other task, no other worker and no other field
    changes. *)
Theorem assign_task_chooses_candidate pick st l task :
  heap st !! l = Some task →
  is_ready_to_execute l st = (Return true, st) →
  suitable_ais st task ≠ [] →
  ∃ w ai st',
    suitable_ais st task !! (pick mod length (suitable_ais st task)) = Some w
    ∧ ais st !! w = Some ai
    ∧ assign_task pick l st = (Return tt, st')
    ∧ heap st' !! l = Some (Task.mk (Task.id task) (Task.description task)
                              (Task.priority task) (Task.deadline task)
                              (Task.dependencies task) "Assigned"
                              (Some (AI.name ai)) (Task.is_completed task))
    ∧ (∀ l', l' ≠ l → heap st' !! l' = heap st !! l')
    ∧ ais st' !! w = Some (AI.mk (AI.name ai) (AI.role ai) (AI.capabilities ai)
                             (AI.tasks ai ++ [l]) (AI.is_busy ai)
                             (AI.performance_record ai))
    ∧ (∀ w', w' ≠ w → ais st' !! w' = ais st !! w')
    ∧ task_manager st' = task_manager st
    ∧ files st' = files st.
Proof.
  intros Htask Hready Hne.
  destruct (random_choice_Some pick _ Hne) as [w Hw].
  assert (Hin : w ∈ suitable_ais st task) by (by eapply list_elem_of_lookup_2).
  apply elem_of_suitable_from in Hin as (ai & _ & Hai & _).
  rewrite Nat.sub_0_r in Hai.
  destruct (assign_task_dispatch pick st l task w ai Htask Hready Hw Hai)
    as (st' & Hrun & Hheap & Hais & Hm & Hf & _).
  exists w, ai, st'. rewrite Hheap, Hais.
  split; [done|]. split; [done|]. split; [done|]. split.
  { apply list_lookup_insert_eq. by eapply lookup_lt_Some. }
  split.
  { intros l' Hl'. by apply list_lookup_insert_ne. }
  split.
  { apply list_lookup_insert_eq. by eapply lookup_lt_Some. }
  split; [|done].
  intros w' Hw'. by apply list_lookup_insert_ne.
Qed.

(** The task "Analyze data" goes to Jexi. *)
Lemma assign_task_chooses_candidate_witness :
  ∃ task,
    heap submitted !! 0 = Some task
    ∧ is_ready_to_execute 0 submitted = (Return true, submitted)
    ∧ suitable_ais submitted task ≠ []
    ∧ ∃ w ai st',
        suitable_ais submitted task
          !! (5 mod length (suitable_ais submitted task)) = Some w
        ∧ ais submitted !! w = Some ai
        ∧ assign_task 5 0 submitted = (Return tt, st')
        ∧ heap st' !! 0 = Some (Task.mk (Task.id task) (Task.description task)
                                  (Task.priority task) (Task.deadline task)
                                  (Task.dependencies task) "Assigned"
                                  (Some (AI.name ai)) (Task.is_completed task))
        ∧ (∀ l', l' ≠ 0 → heap st' !! l' = heap submitted !! l')
        ∧ ais st' !! w = Some (AI.mk (AI.name ai) (AI.role ai)
                                 (AI.capabilities ai) (AI.tasks ai ++ [0])
                                 (AI.is_busy ai) (AI.performance_record ai))
        ∧ (∀ w', w' ≠ w → ais st' !! w' = ais submitted !! w')
        ∧ task_manager st' = task_manager submitted
        ∧ files st' = files submitted.
Proof.
  exists (Task.init 1 "Analyze data" 1 None None).
  assert (Hne : suitable_ais submitted (Task.init 1 "Analyze data" 1 None None) ≠ []).
  { discriminate. }
  split; [reflexivity|]. split; [reflexivity|]. split; [exact Hne|].
  exact (assign_task_chooses_candidate 5 submitted 0 _ eq_refl eq_refl Hne).
Defined.

(** X5.  The operations of the task manager never change who is a
    candidate: after any number of them every task has the candidate
    workers it had before.  Only a worker's own loop, through the busy
    flag, changes the candidates. *)
Theorem manager_steps_keep_candidates st st' task :
  rtc manager_step st st' →
  suitable_ais st' task = suitable_ais st task.
Proof.
  intros Hsteps.
  destruct (rtc_manager_step_pushes_only _ _ Hsteps) as [Hown _].
  by apply suitable_from_own.
Qed.

Lemma manager_steps_keep_candidates_witness :
  rtc manager_step submitted (assign_task 0 0 submitted).2
  ∧ suitable_ais (assign_task 0 0 submitted).2 (Task.init 1 "Analyze data" 1 None None)
    = suitable_ais submitted (Task.init 1 "Analyze data" 1 None None).
Proof.
  assert (Hsteps : rtc manager_step submitted (assign_task 0 0 submitted).2).
  { apply rtc_once. apply step_assign_task. }
  split; [exact Hsteps|].
  exact (manager_steps_keep_candidates _ _ _ Hsteps).
Defined.

(** X6.  A second call of [assign_task] on a task that was just dispatched
    dispatches it again: with the same draw the task stands twice at the end
    of the same worker's queue. *)
Theorem assign_task_twice pick st l task :
  heap st !! l = Some task →
  is_ready_to_execute l st = (Return true, st) →
  suitable_ais st task ≠ [] →
  ∃ w ai st2 ai2,
    ais st !! w = Some ai
    ∧ (assign_task pick l >> assign_task pick l) st = (Return tt, st2)
    ∧ ais st2 !! w = Some ai2
    ∧ AI.tasks ai2 = AI.tasks ai ++ [l; l]
    ∧ AI.is_busy ai2 = AI.is_busy ai
    ∧ Task.status <$> heap st2 !! l = Some "Assigned".
Proof.
  intros Htask Hready Hne.
  destruct (random_choice_Some pick _ Hne) as [w Hw].
  assert (Hin : w ∈ suitable_ais st task) by (by eapply list_elem_of_lookup_2).
  apply elem_of_suitable_from in Hin as (ai & _ & Hai & _).
  rewrite Nat.sub_0_r in Hai.
  assert (Hl : l < length (heap st)) by (by eapply lookup_lt_Some).
  assert (Hwlt : w < length (ais st)) by (by eapply lookup_lt_Some).
  destruct (assign_task_dispatch pick st l task w ai Htask Hready Hw Hai)
    as (st1 & Hrun1 & Hheap1 & Hais1 & _).
  set (task1 := Task.set_status "Assigned"
                  (Task.set_assigned_to (Some (AI.name ai)) task)) in *.
  set (ai1 := AI.set_tasks (AI.tasks ai ++ [l]) ai) in *.
  assert (Htask1 : heap st1 !! l = Some task1).
  { rewrite Hheap1. by apply list_lookup_insert_eq. }
  assert (Hai1 : ais st1 !! w = Some ai1).
  { rewrite Hais1. by apply list_lookup_insert_eq. }
  assert (Hsteps : rtc step st st1).
  { apply rtc_once, step_manager.
    replace st1 with (assign_task pick l st).2 by (by rewrite Hrun1).
    apply step_assign_task. }
  pose proof (evolves_ready _ _ l (rtc_step_evolves _ _ Hsteps) Hready) as Hready1.
  assert (Hpool : suitable_ais st1 task1 = suitable_ais st task).
  { unfold suitable_ais. rewrite Hais1.
    rewrite (suitable_from_description task task1) by done.
    apply suitable_from_own. rewrite list_fmap_insert. apply list_insert_id.
    by rewrite list_lookup_fmap, Hai. }
  rewrite <- Hpool in Hw.
  destruct (assign_task_dispatch pick st1 l task1 w ai1 Htask1 Hready1 Hw Hai1)
    as (st2 & Hrun2 & Hheap2 & Hais2 & _).
  exists w, ai, st2, (AI.set_tasks (AI.tasks ai1 ++ [l]) ai1).
  split; [done|]. split.
  { rewrite (bind_Return _ _ _ _ _ Hrun1). exact Hrun2. }
  rewrite Hais2, Hheap2. split.
  { apply list_lookup_insert_eq. rewrite Hais1. by rewrite length_insert. }
  split; [subst ai1; simpl; by rewrite <- app_assoc|]. split; [done|].
  rewrite list_lookup_insert_eq; [done|]. rewrite Hheap1. by rewrite length_insert.
Qed.

Lemma assign_task_twice_witness :
  ∃ task,
    heap submitted !! 0 = Some task
    ∧ is_ready_to_execute 0 submitted = (Return true, submitted)
    ∧ suitable_ais submitted task ≠ []
    ∧ ∃ w ai st2 ai2,
        ais submitted !! w = Some ai
        ∧ (assign_task 0 0 >> assign_task 0 0) submitted = (Return tt, st2)
        ∧ ais st2 !! w = Some ai2
        ∧ AI.tasks ai2 = AI.tasks ai ++ [0; 0]
        ∧ AI.is_busy ai2 = AI.is_busy ai
        ∧ Task.status <$> heap st2 !! 0 = Some "Assigned".
Proof.
  exists (Task.init 1 "Analyze data" 1 None None).
  assert (Hne : suitable_ais submitted (Task.init 1 "Analyze data" 1 None None) ≠ []).
  { discriminate. }
  split; [reflexivity|]. split; [reflexivity|]. split; [exact Hne|].
  exact (assign_task_twice 0 submitted 0 _ eq_refl eq_refl Hne).
Defined.

(** Witnesses of the three properties of all runs. *)
Lemma manager_steps_push_only_witness :
  ∃ ai,
    rtc manager_step submitted (assign_task 0 0 submitted).2
    ∧ ais submitted !! 0 = Some ai
    ∧ length (ais (assign_task 0 0 submitted).2) = length (ais submitted)
    ∧ ∃ ai', ais (assign_task 0 0 submitted).2 !! 0 = Some ai'
             ∧ AI.name ai' = AI.name ai
             ∧ AI.role ai' = AI.role ai
             ∧ AI.capabilities ai' = AI.capabilities ai
             ∧ AI.is_busy ai' = AI.is_busy ai
             ∧ AI.performance_record ai' = AI.performance_record ai
             ∧ AI.tasks ai `prefix_of` AI.tasks ai'.
Proof.
  eexists.
  assert (Hsteps : rtc manager_step submitted (assign_task 0 0 submitted).2).
  { apply rtc_once. apply step_assign_task. }
  split; [exact Hsteps|]. split; [reflexivity|].
  exact (manager_steps_push_only _ _ 0 _ Hsteps eq_refl).
Defined.

Lemma steps_keep_task_identity_witness :
  ∃ task,
    rtc step dispatched (run_iteration 0 false 0 3 dispatched).2
    ∧ heap dispatched !! 0 = Some task
    ∧ task_manager (run_iteration 0 false 0 3 dispatched).2 = task_manager dispatched
    ∧ length (heap (run_iteration 0 false 0 3 dispatched).2) = length (heap dispatched)
    ∧ ∃ task', heap (run_iteration 0 false 0 3 dispatched).2 !! 0 = Some task'
               ∧ Task.id task' = Task.id task
               ∧ Task.description task' = Task.description task
               ∧ Task.priority task' = Task.priority task
               ∧ Task.deadline task' = Task.deadline task
               ∧ Task.dependencies task' = Task.dependencies task
               ∧ (Task.is_completed task = true → Task.is_completed task' = true).
Proof.
  eexists.
  assert (Hsteps : rtc step dispatched (run_iteration 0 false 0 3 dispatched).2).
  { apply rtc_once. apply step_run_iteration. }
  split; [exact Hsteps|]. split; [reflexivity|].
  exact (steps_keep_task_identity _ _ 0 _ Hsteps eq_refl).
Defined.

Lemma readiness_is_stable_witness :
  rtc step dispatched (run_iteration 0 false 0 3 dispatched).2
  ∧ is_ready_to_execute 0 dispatched = (Return true, dispatched)
  ∧ is_ready_to_execute 0 (run_iteration 0 false 0 3 dispatched).2
    = (Return true, (run_iteration 0 false 0 3 dispatched).2).
Proof.
  assert (Hsteps : rtc step dispatched (run_iteration 0 false 0 3 dispatched).2).
  { apply rtc_once. apply step_run_iteration. }
  split; [exact Hsteps|]. split; [reflexivity|].
  exact (readiness_is_stable _ _ 0 Hsteps eq_refl).
Defined.

(** ** The worker loop, exactly *)

Lemma run_iteration_effect w fails start_time end_time st ai l rest task :
  ais st !! w = Some ai →
  AI.tasks ai = l :: rest →
  heap st !! l = Some task →
  ∃ st',
    run_iteration w fails start_time end_time st = (Return tt, st')
    ∧ heap st' = <[l := if fails then Task.set_status "Error" task
                        else Task.set_status "Completed"
                               (Task.set_is_completed true task)]> (heap st)
    ∧ ais st' = <[w := AI.mk (AI.name ai) (AI.role ai) (AI.capabilities ai) rest
                         false
                         (AI.performance_record ai
                          ++ [(Task.description task, (end_time - start_time)%Z)])]>
                  (ais st)
    ∧ task_manager st' = task_manager st
    ∧ files st' = files st.
Proof.
  intros Hai Hq Htask.
  assert (Hw : w < length (ais st)) by (by eapply lookup_lt_Some).
  assert (Hl : l < length (heap st)) by (by eapply lookup_lt_Some).
  unfold run_iteration.
  rewrite (bind_Return _ _ _ _ _ (get_ai_Some _ _ _ Hai)). rewrite Hq.
  rewrite (bind_Return _ _ _ _ _ (update_ai_Some _ _ _ _ Hai)).
  destruct fails;
    repeat first
      [ progress unfold try_finally, try_except, bind, update_ai, update_task,
          deref, logging, handle_errors, record_performance, raise, ret
      | progress simpl
      | rewrite Htask
      | rewrite list_lookup_insert_eq by (rewrite ?length_insert; done)
      | rewrite list_insert_insert_eq ];
    eauto 10.
Qed.

(** X7.  An iteration of the worker loop that takes a task changes its own
    worker and that task only: every other worker and every other task is
    as before, and so are the collection and the files.  The worker keeps
    its name, role and capabilities and loses the head of its queue; the
    task keeps every field but its status and completion flag, its assigned
    worker included. *)
Theorem run_iteration_frame w fails start_time end_time st ai l rest task :
  ais st !! w = Some ai →
  AI.tasks ai = l :: rest →
  heap st !! l = Some task →
  ∃ st' ai' task',
    run_iteration w fails start_time end_time st = (Return tt, st')
    ∧ (∀ w', w' ≠ w → ais st' !! w' = ais st !! w')
    ∧ (∀ l', l' ≠ l → heap st' !! l' = heap st !! l')
    ∧ task_manager st' = task_manager st
    ∧ files st' = files st
    ∧ ais st' !! w = Some ai'
    ∧ AI.name ai' = AI.name ai
    ∧ AI.role ai' = AI.role ai
    ∧ AI.capabilities ai' = AI.capabilities ai
    ∧ AI.tasks ai' = rest
    ∧ heap st' !! l = Some task'
    ∧ Task.id task' = Task.id task
    ∧ Task.description task' = Task.description task
    ∧ Task.priority task' = Task.priority task
    ∧ Task.deadline task' = Task.deadline task
    ∧ Task.dependencies task' = Task.dependencies task
    ∧ Task.assigned_to task' = Task.assigned_to task.
Proof.
  intros Hai Hq Htask.
  destruct (run_iteration_effect w fails start_time end_time st ai l rest task
              Hai Hq Htask) as (st' & Hrun & Hheap & Hais & Hm & Hf).
  exists st'. eexists. eexists. rewrite Hheap, Hais.
  split; [done|]. split.
  { intros w' Hw'. by apply list_lookup_insert_ne. }
  split.
  { intros l' Hl'. by apply list_lookup_insert_ne. }
  split; [done|]. split; [done|]. split.
  { apply list_lookup_insert_eq. by eapply lookup_lt_Some. }
  repeat (split; [done|]). split.
  { apply list_lookup_insert_eq. by eapply lookup_lt_Some. }
  by destruct fails.
Qed.

Lemma run_iteration_frame_witness :
  ∃ ai task,
    ais dispatched !! 0 = Some ai
    ∧ AI.tasks ai = [0]
    ∧ heap dispatched !! 0 = Some task
    ∧ ∃ st' ai' task',
        run_iteration 0 true 10 13 dispatched = (Return tt, st')
        ∧ (∀ w', w' ≠ 0 → ais st' !! w' = ais dispatched !! w')
        ∧ (∀ l', l' ≠ 0 → heap st' !! l' = heap dispatched !! l')
        ∧ task_manager st' = task_manager dispatched
        ∧ files st' = files dispatched
        ∧ ais st' !! 0 = Some ai'
        ∧ AI.name ai' = AI.name ai
        ∧ AI.role ai' = AI.role ai
        ∧ AI.capabilities ai' = AI.capabilities ai
        ∧ AI.tasks ai' = []
        ∧ heap st' !! 0 = Some task'
        ∧ Task.id task' = Task.id task
        ∧ Task.description task' = Task.description task
        ∧ Task.priority task' = Task.priority task
        ∧ Task.deadline task' = Task.deadline task
        ∧ Task.dependencies task' = Task.dependencies task
        ∧ Task.assigned_to task' = Task.assigned_to task.
Proof.
  do 2 eexists.
  split; [reflexivity|]. split; [reflexivity|]. split; [reflexivity|].
  exact (run_iteration_frame 0 true 10 13 dispatched _ 0 [] _
           eq_refl eq_refl eq_refl).
Defined.

Lemma description_at_insert st (l : loc) task task' (l' : loc) :
  heap st !! l = Some task →
  Task.description task' = Task.description task →
  default "" (Task.description <$> <[l := task']> (heap st) !! l')
  = description_at st l'.
Proof.
  intros Htask Hd. unfold description_at.
  destruct (decide (l = l')) as [->|Hne].
  - rewrite list_lookup_insert_eq by (by eapply lookup_lt_Some).
    by rewrite Htask.
  - by rewrite list_lookup_insert_ne.
Qed.

Lemma run_iterations_run w draws : ∀ st ai,
  ais st !! w = Some ai →
  (∀ l, l ∈ AI.tasks ai → is_Some (heap st !! l)) →
  ∃ st' ai',
    run_iterations w draws st = (Return tt, st')
    ∧ ais st' !! w = Some ai'
    ∧ AI.tasks ai' = drop (length draws) (AI.tasks ai)
    ∧ AI.performance_record ai'
      = AI.performance_record ai
        ++ zip_with (λ l d, (description_at st l, (d.2.2 - d.2.1)%Z))
                    (AI.tasks ai) draws.
Proof.
  induction draws as [|d ds IH]; intros st ai Hai Hclosed.
  - exists st, ai. split; [done|]. split; [done|]. split; [done|].
    destruct (AI.tasks ai); simpl; by rewrite app_nil_r.
  - unfold run_iterations. simpl. fold (run_iterations w ds).
    destruct (AI.tasks ai) as [|l rest] eqn:Hq.
    + assert (Hidle : run_iteration w d.1 d.2.1 d.2.2 st = (Return tt, st)).
      { unfold run_iteration.
        rewrite (bind_Return _ _ _ _ _ (get_ai_Some _ _ _ Hai)). by rewrite Hq. }
      rewrite (bind_Return _ _ _ _ _ Hidle).
      destruct (IH st ai Hai) as (st' & ai' & Hrun & Hai' & Hq' & Hp').
      { by rewrite Hq. }
      exists st', ai'. rewrite Hq in Hq', Hp'. simpl in *.
      rewrite drop_nil in Hq'. done.
    + destruct (Hclosed l) as [task Htask]; [left|].
      destruct (run_iteration_effect w d.1 d.2.1 d.2.2 st ai l rest task
                  Hai Hq Htask) as (st1 & Hrun1 & Hheap1 & Hais1 & _).
      rewrite (bind_Return _ _ _ _ _ Hrun1).
      set (ai1 := AI.mk _ _ _ rest false _) in Hais1.
      assert (Hai1 : ais st1 !! w = Some ai1).
      { rewrite Hais1. apply list_lookup_insert_eq. by eapply lookup_lt_Some. }
      destruct (IH st1 ai1 Hai1) as (st' & ai' & Hrun & Hai' & Hq' & Hp').
      { intros l' Hl'. rewrite Hheap1. apply lookup_lt_is_Some.
        rewrite length_insert. apply lookup_lt_is_Some. apply Hclosed. by right. }
      exists st', ai'. split; [done|]. split; [done|]. split; [done|].
      rewrite Hp'. simpl. rewrite <- app_assoc. simpl. f_equal. f_equal.
      { unfold description_at. by rewrite Htask. }
      apply zip_with_ext; [|done..]. intros l' d' .
      f_equal. unfold description_at at 1. rewrite Hheap1.
      apply (description_at_insert st l task); [done|]. by destruct d.1.
Qed.

(** X8.  The worker loop serves its queue first in, first out.  After as
    many iterations as [draws] has entries the queue has lost that many
    tasks from its front (iterations on an empty queue do nothing), and the
    performance record has one new entry for each task taken, in queue
    order: the task's description with the elapsed time of its iteration. *)
Theorem run_iterations_fifo w draws st ai :
  ais st !! w = Some ai →
  (∀ l, l ∈ AI.tasks ai → is_Some (heap st !! l)) →
  ∃ st' ai',
    run_iterations w draws st = (Return tt, st')
    ∧ ais st' !! w = Some ai'
    ∧ AI.tasks ai' = drop (length draws) (AI.tasks ai)
    ∧ AI.performance_record ai'
      = AI.performance_record ai
        ++ zip_with (λ l d, (description_at st l, (d.2.2 - d.2.1)%Z))
                    (AI.tasks ai) draws.
Proof. apply run_iterations_run. Qed.

(** Two tasks in Jexi's queue: three iterations serve them in order, the
    third finds the queue empty. *)
Lemma run_iterations_fifo_witness :
  ∃ ai,
    ais queued !! 0 = Some ai
    ∧ (∀ l, l ∈ AI.tasks ai → is_Some (heap queued !! l))
    ∧ AI.tasks ai = [0; 1]
    ∧ ∃ st' ai',
        run_iterations 0 [(false, (0, 3)); (true, (3, 5)); (false, (5, 6))]%Z queued
        = (Return tt, st')
        ∧ ais st' !! 0 = Some ai'
        ∧ AI.tasks ai' = drop 3 (AI.tasks ai)
        ∧ AI.performance_record ai'
          = AI.performance_record ai
            ++ zip_with (λ l d, (description_at queued l, (d.2.2 - d.2.1)%Z))
                        (AI.tasks ai)
                        [(false, (0, 3)); (true, (3, 5)); (false, (5, 6))]%Z.
Proof.
  eexists.
  assert (Hclosed : ∀ l, l ∈ [0; 1] → is_Some (heap queued !! l)).
  { intros l Hl.
    repeat (apply elem_of_cons in Hl as [->|Hl]; [eexists; reflexivity|]).
    by apply elem_of_nil in Hl. }
  split; [reflexivity|]. split; [exact Hclosed|]. split; [reflexivity|].
  exact (run_iterations_fifo 0 [(false, (0, 3)); (true, (3, 5)); (false, (5, 6))]%Z
           queued _ eq_refl Hclosed).
Defined.

Example run_iterations_two_tasks :
  AI.performance_record
    <$> ais (run_iterations 0 [(false, (0, 3)); (true, (3, 5)); (false, (5, 6))]%Z
               queued).2 !! 0
  = Some [("Analyze data", 3%Z); ("Data cleaning", 2%Z)].
Proof. reflexivity. Qed.

(** X9.  A failed execution blocks the dependents.  When the iteration
    fails on a task whose completion flag was false, the flag stays false:
    every task that has it among its dependencies is then not ready, and
    [assign_task] on such a task only reports that it waits, dispatching
    nothing. *)
Theorem failed_task_blocks_dependents w start_time end_time pick st ai l rest
    task l2 task2 :
  ais st !! w = Some ai →
  AI.tasks ai = l :: rest →
  heap st !! l = Some task →
  Task.is_completed task = false →
  heap st !! l2 = Some task2 →
  l ∈ Task.dependencies task2 →
  (∀ d, d ∈ Task.dependencies task2 → is_Some (heap st !! d)) →
  ∃ st' st'',
    run_iteration w true start_time end_time st = (Return tt, st')
    ∧ Task.status <$> heap st' !! l = Some "Error"
    ∧ Task.is_completed <$> heap st' !! l = Some false
    ∧ is_ready_to_execute l2 st' = (Return false, st')
    ∧ assign_task pick l2 st' = (Return tt, st'')
    ∧ heap st'' = heap st'
    ∧ ais st'' = ais st'.
Proof.
  intros Hai Hq Htask Hflag Htask2 Hdep Hclosed.
  destruct (run_iteration_effect w true start_time end_time st ai l rest task
              Hai Hq Htask) as (st' & Hrun & Hheap & _).
  assert (Hl : l < length (heap st)) by (by eapply lookup_lt_Some).
  assert (Hfailed : heap st' !! l = Some (Task.set_status "Error" task)).
  { rewrite Hheap. by apply list_lookup_insert_eq. }
  assert (Htask2' : ∃ task2', heap st' !! l2 = Some task2'
                              ∧ Task.dependencies task2' = Task.dependencies task2).
  { destruct (decide (l2 = l)) as [->|Hne].
    - exists (Task.set_status "Error" task). split; [done|]. simpl. congruence.
    - exists task2. rewrite Hheap. by rewrite list_lookup_insert_ne. }
  destruct Htask2' as (task2' & Htask2' & Hdeps).
  assert (Hready : is_ready_to_execute l2 st' = (Return false, st')).
  { destruct (all_completed_spec (Task.dependencies task2) st') as (b & Hb & Hiff).
    { intros d Hd. rewrite Hheap. apply lookup_lt_is_Some. rewrite length_insert.
      apply lookup_lt_is_Some. by apply Hclosed. }
    unfold is_ready_to_execute.
    rewrite (bind_Return _ _ _ _ _ (deref_Some _ _ _ Htask2')), Hdeps, Hb.
    destruct b; [|done].
    destruct (proj1 Hiff eq_refl l Hdep) as (dep & Hlook & Hdone).
    rewrite Hfailed in Hlook. injection Hlook as <-. simpl in Hdone. congruence. }
  exists st'. eexists. split; [done|]. rewrite Hfailed. simpl.
  split; [done|]. split; [by rewrite Hflag|]. split; [done|].
  rewrite (assign_task_not_ready pick st' l2 task2' Htask2' Hready). done.
Qed.

(** The second task of [chained] depends on the first, which Jexi fails. *)
Lemma failed_task_blocks_dependents_witness :
  ∃ ai task task2,
    ais chained !! 0 = Some ai
    ∧ AI.tasks ai = [0]
    ∧ heap chained !! 0 = Some task
    ∧ Task.is_completed task = false
    ∧ heap chained !! 1 = Some task2
    ∧ 0 ∈ Task.dependencies task2
    ∧ (∀ d, d ∈ Task.dependencies task2 → is_Some (heap chained !! d))
    ∧ ∃ st' st'',
        run_iteration 0 true 0 2 chained = (Return tt, st')
        ∧ Task.status <$> heap st' !! 0 = Some "Error"
        ∧ Task.is_completed <$> heap st' !! 0 = Some false
        ∧ is_ready_to_execute 1 st' = (Return false, st')
        ∧ assign_task 0 1 st' = (Return tt, st'')
        ∧ heap st'' = heap st'
        ∧ ais st'' = ais st'.
Proof.
  exists (AI.mk "Jexi" "Data Analyst"
            ["analyze data"; "predictive analysis"; "data cleaning";
             "generate reports"] [0] false []),
         (Task.mk 1 "Analyze data" 1 None [] "Assigned" (Some "Jexi") false),
         (Task.init 2 "Data cleaning" 2 None (Some [0])).
  assert (Hdep : 0 ∈ [0]) by left.
  assert (Hclosed : ∀ d, d ∈ [0] → is_Some (heap chained !! d)).
  { intros d Hd. apply list_elem_of_singleton in Hd. subst d.
    eexists. reflexivity. }
  split; [reflexivity|]. split; [reflexivity|]. split; [reflexivity|].
  split; [reflexivity|]. split; [reflexivity|]. split; [exact Hdep|].
  split; [exact Hclosed|].
  exact (failed_task_blocks_dependents 0 0 2 0 chained _ 0 [] _ 1 _
           eq_refl eq_refl eq_refl eq_refl eq_refl Hdep Hclosed).
Defined.

(** ** When prioritisation returns *)

Section PrioritizerRuns.

Variable strptime : string → string → option struct_time.
Variable localtime : struct_time.

Lemma prioritize_skips l st task :
  heap st !! l = Some task →
  reaches_subtraction task = false →
  prioritize strptime localtime l st = (Return tt, st).
Proof.
  intros Htask Hno. unfold prioritize.
  rewrite (bind_Return _ _ _ _ _ (deref_Some _ _ _ Htask)).
  unfold reaches_subtraction in Hno.
  destruct (Task.status task =? "Pending")%string; [|done].
  by destruct (Task.deadline task) as [[|c s]|].
Qed.

Lemma prioritize_stops l st task :
  heap st !! l = Some task →
  reaches_subtraction task = true →
  ∃ e, prioritize strptime localtime l st = (Raise e, st)
       ∧ (e = TypeError ∨ e = ValueError).
Proof.
  intros Htask Hyes. unfold reaches_subtraction in Hyes.
  destruct (Task.status task =? "Pending")%string eqn:Hstatus; [|done].
  destruct (Task.deadline task) as [[|c s]|] eqn:Hdeadline; try done.
  apply String.eqb_eq in Hstatus.
  by eapply prioritize_raises.
Qed.

Lemma for_each_prioritize_returns ts st :
  (∀ l, l ∈ ts → ∃ task, heap st !! l = Some task
                         ∧ reaches_subtraction task = false) →
  for_each ts (prioritize strptime localtime) st = (Return tt, st).
Proof.
  induction ts as [|l rest IH]; intros Hno; [done|].
  destruct (Hno l) as (task & Htask & Hskip); [left|].
  simpl. rewrite (bind_Return _ _ _ _ _ (prioritize_skips _ _ _ Htask Hskip)).
  apply IH. intros l' Hl'. apply Hno. by right.
Qed.

Lemma for_each_prioritize_stops ts st l task :
  (∀ l', l' ∈ ts → is_Some (heap st !! l')) →
  l ∈ ts →
  heap st !! l = Some task →
  reaches_subtraction task = true →
  ∃ e, for_each ts (prioritize strptime localtime) st = (Raise e, st)
       ∧ (e = TypeError ∨ e = ValueError).
Proof.
  intros Hclosed Hin Htask Hyes.
  induction ts as [|l0 rest IH]; [by apply elem_of_nil in Hin|].
  destruct (Hclosed l0) as [task0 Htask0]; [left|].
  simpl. destruct (reaches_subtraction task0) eqn:H0.
  - destruct (prioritize_stops _ _ _ Htask0 H0) as (e & Hrun & He).
    exists e. by rewrite (bind_Raise _ _ _ _ _ Hrun).
  - rewrite (bind_Return _ _ _ _ _ (prioritize_skips _ _ _ Htask0 H0)).
    apply IH.
    + intros l' Hl'. apply Hclosed. by right.
    + apply elem_of_cons in Hin as [->|Hin]; [|done]. congruence.
Qed.

End PrioritizerRuns.

(** X10.  [dynamic_prioritization] returns only on collections without
    a pending task that has a deadline: when every task of the collection
    is not pending, or has no deadline or an empty one, it returns and the
    state is as before. *)
Theorem dynamic_prioritization_returns strptime localtime st :
  (∀ l, l ∈ TaskManager.tasks (task_manager st) →
        ∃ task, heap st !! l = Some task
                ∧ (Task.status task ≠ "Pending"
                   ∨ Task.deadline task = None
                   ∨ Task.deadline task = Some "")) →
  dynamic_prioritization strptime localtime st = (Return tt, st).
Proof.
  intros Hno. unfold dynamic_prioritization, get_tasks, bind.
  apply for_each_prioritize_returns. intros l Hl.
  destruct (Hno l Hl) as (task & Htask & Hcase).
  exists task. split; [done|]. unfold reaches_subtraction.
  destruct Hcase as [Hs|[Hd|Hd]].
  - apply String.eqb_neq in Hs. by rewrite Hs.
  - rewrite Hd. apply andb_false_r.
  - rewrite Hd. apply andb_false_r.
Qed.

(** After an execution no task of [finished] is pending. *)
Lemma dynamic_prioritization_returns_witness :
  (∀ l, l ∈ TaskManager.tasks (task_manager finished) →
        ∃ task, heap finished !! l = Some task
                ∧ (Task.status task ≠ "Pending"
                   ∨ Task.deadline task = None
                   ∨ Task.deadline task = Some ""))
  ∧ dynamic_prioritization (λ _ _, None)
      (mk_struct_time 2024 9 14 0 0 0 5 258 0) finished
    = (Return tt, finished).
Proof.
  assert (Hno : ∀ l, l ∈ TaskManager.tasks (task_manager finished) →
                     ∃ task, heap finished !! l = Some task
                             ∧ (Task.status task ≠ "Pending"
                                ∨ Task.deadline task = None
                                ∨ Task.deadline task = Some "")).
  { intros l Hl. apply list_elem_of_singleton in Hl. subst l.
    eexists. split; [reflexivity|]. right. left. reflexivity. }
  split; [exact Hno|].
  exact (dynamic_prioritization_returns _ _ finished Hno).
Defined.

(** X11.  As soon as one task of the collection is pending with a
    non-empty deadline, [dynamic_prioritization] ends with an exception,
    [TypeError] from the subtraction of the two time values or [ValueError]
    from the parser, whatever the deadline and the clock are; the state is
    as before. *)
Theorem dynamic_prioritization_stops strptime localtime st l task :
  (∀ l', l' ∈ TaskManager.tasks (task_manager st) → is_Some (heap st !! l')) →
  l ∈ TaskManager.tasks (task_manager st) →
  heap st !! l = Some task →
  Task.status task = "Pending" →
  Task.deadline task ≠ None →
  Task.deadline task ≠ Some "" →
  ∃ e, dynamic_prioritization strptime localtime st = (Raise e, st)
       ∧ (e = TypeError ∨ e = ValueError).
Proof.
  intros Hclosed Hin Htask Hstatus Hsome Hnonempty.
  unfold dynamic_prioritization, get_tasks, bind.
  eapply for_each_prioritize_stops; [done..|].
  unfold reaches_subtraction. rewrite Hstatus. simpl.
  by destruct (Task.deadline task) as [[|c s]|].
Qed.

(** The last default task, ten days before its deadline or at any time. *)
Lemma dynamic_prioritization_stops_witness :
  ∃ task,
    (∀ l', l' ∈ TaskManager.tasks (task_manager seeded) →
           is_Some (heap seeded !! l'))
    ∧ 3 ∈ TaskManager.tasks (task_manager seeded)
    ∧ heap seeded !! 3 = Some task
    ∧ Task.status task = "Pending"
    ∧ Task.deadline task ≠ None
    ∧ Task.deadline task ≠ Some ""
    ∧ ∃ e, dynamic_prioritization (λ _ _, None)
             (mk_struct_time 2024 8 31 0 0 0 5 244 0) seeded
           = (Raise e, seeded)
           ∧ (e = TypeError ∨ e = ValueError).
Proof.
  exists (Task.init 4 "Review and optimize code for security" 2
            (Some "2024-09-10") (Some [1])).
  assert (Hclosed : ∀ l', l' ∈ TaskManager.tasks (task_manager seeded) →
                          is_Some (heap seeded !! l')).
  { intros l' Hl'.
    repeat (apply elem_of_cons in Hl' as [->|Hl']; [eexists; reflexivity|]).
    by apply elem_of_nil in Hl'. }
  assert (Hin : 3 ∈ TaskManager.tasks (task_manager seeded)).
  { do 3 right. left. }
  assert (H1 : Some "2024-09-10" ≠ (None : option string)) by discriminate.
  assert (H2 : Some "2024-09-10" ≠ Some "") by discriminate.
  split; [exact Hclosed|]. split; [exact Hin|]. split; [reflexivity|].
  split; [reflexivity|]. split; [exact H1|]. split; [exact H2|].
  exact (dynamic_prioritization_stops _ _ seeded 3 _ Hclosed Hin eq_refl eq_refl H1 H2).
Defined.

(** X12.  A pass of the main loop over a collection with a pending task
    that has a deadline ends in the exception of the prioritisation, before
    the dispatch, the rendering and the saving: no task is assigned, no
    file is written, and the state is as before. *)
Theorem main_loop_iteration_stops strptime localtime graphviz pick st l task :
  (∀ l', l' ∈ TaskManager.tasks (task_manager st) → is_Some (heap st !! l')) →
  l ∈ TaskManager.tasks (task_manager st) →
  heap st !! l = Some task →
  Task.status task = "Pending" →
  Task.deadline task ≠ None →
  Task.deadline task ≠ Some "" →
  ∃ e, main_loop_iteration strptime localtime graphviz pick st = (Raise e, st)
       ∧ (e = TypeError ∨ e = ValueError).
Proof.
  intros Hclosed Hin Htask Hstatus Hsome Hnonempty.
  assert (Hyes : reaches_subtraction task = true).
  { unfold reaches_subtraction. rewrite Hstatus. simpl.
    by destruct (Task.deadline task) as [[|c s]|]. }
  destruct (for_each_prioritize_stops strptime localtime _ st l task
              Hclosed Hin Htask Hyes) as (e & Hrun & He).
  exists e. split; [|done].
  unfold main_loop_iteration.
  apply bind_Raise. unfold dynamic_prioritization, get_tasks, bind. exact Hrun.
Qed.

(** The first pass of the program on its default tasks. *)
Lemma main_loop_iteration_stops_witness :
  ∃ task,
    (∀ l', l' ∈ TaskManager.tasks (task_manager seeded) →
           is_Some (heap seeded !! l'))
    ∧ 0 ∈ TaskManager.tasks (task_manager seeded)
    ∧ heap seeded !! 0 = Some task
    ∧ Task.status task = "Pending"
    ∧ Task.deadline task ≠ None
    ∧ Task.deadline task ≠ Some ""
    ∧ ∃ e, main_loop_iteration (λ _ _, Some (mk_struct_time 2024 9 1 0 0 0 6 245 0))
             (mk_struct_time 2024 8 31 0 0 0 5 244 0) (λ _ fs, (None, fs))
             (λ _, 0) seeded
           = (Raise e, seeded)
           ∧ (e = TypeError ∨ e = ValueError).
Proof.
  exists (Task.init 1 "Analyze various datasets" 1 (Some "2024-09-01") None).
  assert (Hclosed : ∀ l', l' ∈ TaskManager.tasks (task_manager seeded) →
                          is_Some (heap seeded !! l')).
  { intros l' Hl'.
    repeat (apply elem_of_cons in Hl' as [->|Hl']; [eexists; reflexivity|]).
    by apply elem_of_nil in Hl'. }
  assert (Hin : 0 ∈ TaskManager.tasks (task_manager seeded)) by left.
  assert (H1 : Some "2024-09-01" ≠ (None : option string)) by discriminate.
  assert (H2 : Some "2024-09-01" ≠ Some "") by discriminate.
  split; [exact Hclosed|]. split; [exact Hin|]. split; [reflexivity|].
  split; [reflexivity|]. split; [exact H1|]. split; [exact H2|].
  exact (main_loop_iteration_stops _ _ _ _ seeded 0 _ Hclosed Hin
           eq_refl eq_refl H1 H2).
Defined.

(** ** Saving *)

Lemma deref_all_closed ts st :
  (∀ l, l ∈ ts → is_Some (heap st !! l)) →
  ∃ objs, deref_all ts st = (Return objs, st)
          ∧ Forall2 (λ l task, heap st !! l = Some task) ts objs.
Proof.
  induction ts as [|l rest IH]; intros Hclosed.
  - exists []. split; [done|]. constructor.
  - destruct (Hclosed l) as [task Htask]; [left|].
    destruct IH as (objs & Hrun & Hall).
    { intros l' Hl'. apply Hclosed. by right. }
    exists (task :: objs). split; [|by constructor].
    simpl. rewrite (bind_Return _ _ _ _ _ (deref_Some _ _ _ Htask)).
    by rewrite (bind_Return _ _ _ _ _ Hrun).
Qed.

Lemma json_of_tasks_Some objs :
  Forall (λ task, Task.dependencies task = []) objs →
  ∃ js, json_of_tasks objs = Some js
        ∧ Forall2 (λ task j, json_of_task task = Some j) objs js.
Proof.
  induction 1 as [|task rest Hdeps _ (js & Hjs & Hall)].
  - exists []. split; [done|]. constructor.
  - assert (Hj : ∃ j, json_of_task task = Some j).
    { unfold json_of_task. rewrite Hdeps. eauto. }
    destruct Hj as [j Hj]. exists (j :: js). simpl. rewrite Hj, Hjs.
    split; [done|]. by constructor.
Qed.

Lemma json_of_tasks_None objs task :
  task ∈ objs → Task.dependencies task ≠ [] → json_of_tasks objs = None.
Proof.
  intros Hin Hdeps. induction objs as [|t rest IH]; [by apply elem_of_nil in Hin|].
  simpl. apply elem_of_cons in Hin as [<-|Hin].
  - unfold json_of_task. by destruct (Task.dependencies task).
  - rewrite (IH Hin). by destruct (json_of_task t).
Qed.

(** X13.  When no task of the collection has a dependency, [save_state]
    returns: the file holds a JSON list with one object per task, in
    collection order, each with the eight attributes of the task, and the
    tasks, the workers and the other files are as before. *)
Theorem save_state_writes filename st :
  (∀ l, l ∈ TaskManager.tasks (task_manager st) →
        ∃ task, heap st !! l = Some task ∧ Task.dependencies task = []) →
  ∃ js st',
    save_state filename st = (Return tt, st')
    ∧ files st' !! filename = Some (JsonText (JList js))
    ∧ Forall2 (λ l j, ∃ task,
                 heap st !! l = Some task
                 ∧ j = JDict [("id", JInt (Task.id task));
                              ("description", JStr (Task.description task));
                              ("priority", JInt (Task.priority task));
                              ("deadline", json_of_option_str (Task.deadline task));
                              ("dependencies", JList []);
                              ("status", JStr (Task.status task));
                              ("assigned_to",
                               json_of_option_str (Task.assigned_to task));
                              ("is_completed", JBool (Task.is_completed task))])
              (TaskManager.tasks (task_manager st)) js
    ∧ (∀ other, other ≠ filename → files st' !! other = files st !! other)
    ∧ heap st' = heap st
    ∧ ais st' = ais st
    ∧ task_manager st' = task_manager st.
Proof.
  intros Hflat.
  destruct (deref_all_closed (TaskManager.tasks (task_manager st)) st)
    as (objs & Hrun & Hobjs).
  { intros l Hl. destruct (Hflat l Hl) as (task & Htask & _). eauto. }
  assert (Hdeps : Forall (λ task, Task.dependencies task = []) objs).
  { apply Forall_forall. intros task Hin.
    apply list_elem_of_lookup in Hin as [i Hi].
    destruct (Forall2_lookup_r _ _ _ _ _ Hobjs Hi) as (l & Hl & Htask).
    destruct (Hflat l) as (task' & Htask' & Hd).
    { by eapply list_elem_of_lookup_2. }
    congruence. }
  destruct (json_of_tasks_Some objs Hdeps) as (js & Hjs & Hall).
  exists js. eexists. split.
  { unfold save_state, get_tasks. unfold bind at 1. unfold bind at 1.
    rewrite Hrun, Hjs. reflexivity. }
  simpl. split; [by rewrite lookup_insert_eq|]. split.
  { clear Hrun Hjs Hdeps Hflat. revert js Hall.
    induction Hobjs as [|l task ts objs Htask _ IH]; intros js Hall.
    - inversion Hall. constructor.
    - inversion Hall as [|? j ? js' Hj Hrest]; subst. constructor; [|by apply IH].
      exists task. split; [done|]. unfold json_of_task in Hj.
      destruct (Task.dependencies task); [|done]. by injection Hj. }
  split; [|done]. intros other Hne. by rewrite lookup_insert_ne.
Qed.

(** The one task of [single]. *)
Lemma save_state_writes_witness :
  (∀ l, l ∈ TaskManager.tasks (task_manager single) →
        ∃ task, heap single !! l = Some task ∧ Task.dependencies task = [])
  ∧ ∃ js st',
      save_state state_file single = (Return tt, st')
      ∧ files st' !! state_file = Some (JsonText (JList js))
      ∧ Forall2 (λ l j, ∃ task,
                   heap single !! l = Some task
                   ∧ j = JDict [("id", JInt (Task.id task));
                                ("description", JStr (Task.description task));
                                ("priority", JInt (Task.priority task));
                                ("deadline", json_of_option_str (Task.deadline task));
                                ("dependencies", JList []);
                                ("status", JStr (Task.status task));
                                ("assigned_to",
                                 json_of_option_str (Task.assigned_to task));
                                ("is_completed", JBool (Task.is_completed task))])
                (TaskManager.tasks (task_manager single)) js
      ∧ (∀ other, other ≠ state_file → files st' !! other = files single !! other)
      ∧ heap st' = heap single
      ∧ ais st' = ais single
      ∧ task_manager st' = task_manager single.
Proof.
  assert (Hflat : ∀ l, l ∈ TaskManager.tasks (task_manager single) →
                       ∃ task, heap single !! l = Some task
                               ∧ Task.dependencies task = []).
  { intros l Hl. apply list_elem_of_singleton in Hl. subst l.
    eexists. split; reflexivity. }
  split; [exact Hflat|].
  exact (save_state_writes state_file single Hflat).
Defined.

(** X14.  When a task of the collection has a dependency, [save_state]
    raises [TypeError], and the file is left with text that is not JSON:
    what an earlier call had saved under that name is lost.  Tasks and
    workers are as before. *)
Theorem save_state_fails filename st l task :
  (∀ l', l' ∈ TaskManager.tasks (task_manager st) → is_Some (heap st !! l')) →
  l ∈ TaskManager.tasks (task_manager st) →
  heap st !! l = Some task →
  Task.dependencies task ≠ [] →
  ∃ st',
    save_state filename st = (Raise TypeError, st')
    ∧ files st' !! filename = Some NotJson
    ∧ heap st' = heap st
    ∧ ais st' = ais st
    ∧ task_manager st' = task_manager st
    ∧ log st' = log st.
Proof.
  intros Hclosed Hin Htask Hdeps.
  destruct (deref_all_closed _ st Hclosed) as (objs & Hrun & Hobjs).
  assert (Hobj : task ∈ objs).
  { apply list_elem_of_lookup in Hin as [i Hi].
    destruct (Forall2_lookup_l _ _ _ _ _ Hobjs Hi) as (task' & Hi' & Htask').
    apply list_elem_of_lookup. exists i. congruence. }
  eexists. split.
  { unfold save_state, get_tasks. unfold bind at 1. unfold bind at 1.
    rewrite Hrun, (json_of_tasks_None objs task Hobj Hdeps). reflexivity. }
  simpl. split; [by rewrite lookup_insert_eq|done].
Qed.

(** The default tasks, saved over the file of [single]. *)
Lemma save_state_fails_witness :
  ∃ task,
    (∀ l', l' ∈ TaskManager.tasks (task_manager seeded) →
           is_Some (heap seeded !! l'))
    ∧ 2 ∈ TaskManager.tasks (task_manager seeded)
    ∧ heap seeded !! 2 = Some task
    ∧ Task.dependencies task ≠ []
    ∧ ∃ st',
        save_state state_file seeded = (Raise TypeError, st')
        ∧ files st' !! state_file = Some NotJson
        ∧ heap st' = heap seeded
        ∧ ais st' = ais seeded
        ∧ task_manager st' = task_manager seeded
        ∧ log st' = log seeded.
Proof.
  exists (Task.init 3 "Conduct market research on competitors" 2
            (Some "2024-09-15") (Some [0])).
  assert (Hclosed : ∀ l', l' ∈ TaskManager.tasks (task_manager seeded) →
                          is_Some (heap seeded !! l')).
  { intros l' Hl'.
    repeat (apply elem_of_cons in Hl' as [->|Hl']; [eexists; reflexivity|]).
    by apply elem_of_nil in Hl'. }
  assert (Hin : 2 ∈ TaskManager.tasks (task_manager seeded)).
  { do 2 right. left. }
  assert (Hdeps : [0] ≠ ([] : list loc)) by discriminate.
  split; [exact Hclosed|]. split; [exact Hin|]. split; [reflexivity|].
  split; [exact Hdeps|].
  exact (save_state_fails state_file seeded 2 _ Hclosed Hin eq_refl Hdeps).
Defined.

(** ** Loading *)

(** X15.  Without a file of that name [load_state] does not fail: it
    returns, and the only change is the warning in the log. *)
Theorem load_state_missing_file filename st :
  files st !! filename = None →
  load_state filename st
  = (Return tt,
     set_log (log st ++ [(WARNING, "No saved state found. Starting fresh.")]) st).
Proof.
  intros Hnone. unfold load_state, try_except, bind at 1, read_json.
  by rewrite Hnone.
Qed.

Lemma load_state_missing_file_witness :
  files (startup ∅) !! state_file = None
  ∧ load_state state_file (startup ∅)
    = (Return tt,
       set_log (log (startup ∅)
                ++ [(WARNING, "No saved state found. Starting fresh.")])
               (startup ∅)).
Proof.
  split; [reflexivity|].
  exact (load_state_missing_file state_file (startup ∅) eq_refl).
Defined.

(** X16.  What [save_state] wrote for a collection that is not empty is
    never read back.  The process that starts on the files left by
    [save_state] ends [load_state] with [TypeError] (the saved objects
    carry attributes that [Task] does not take) or with [JSONDecodeError]
    (the save itself had failed), and its collection stays empty. *)
Theorem save_state_then_load_state_raises filename st r st1 :
  TaskManager.tasks (task_manager st) ≠ [] →
  save_state filename st = (r, st1) →
  r ≠ OutOfModel →
  ∃ e st2,
    load_state filename (startup (files st1)) = (Raise e, st2)
    ∧ (e = TypeError ∨ e = JSONDecodeError)
    ∧ TaskManager.tasks (task_manager st2) = [].
Proof. apply load_state_after_save_state. Qed.

Lemma save_state_then_load_state_raises_witness :
  TaskManager.tasks (task_manager single) ≠ []
  ∧ save_state state_file single = (Return tt, (save_state state_file single).2)
  ∧ Return tt ≠ (OutOfModel : outcome unit)
  ∧ ∃ e st2,
      load_state state_file (startup (files (save_state state_file single).2))
      = (Raise e, st2)
      ∧ (e = TypeError ∨ e = JSONDecodeError)
      ∧ TaskManager.tasks (task_manager st2) = [].
Proof.
  assert (Hne : TaskManager.tasks (task_manager single) ≠ []) by discriminate.
  assert (Hr : Return tt ≠ (OutOfModel : outcome unit)) by discriminate.
  split; [exact Hne|]. split; [reflexivity|]. split; [exact Hr|].
  exact (save_state_then_load_state_raises state_file single _ _ Hne eq_refl Hr).
Defined.

(** X17.  The program cannot start again after it saved a collection that
    is not empty: [main_start] on the files left by [save_state] ends with
    the exception of [load_state], before any default task is created. *)
Theorem main_start_after_save_state st r st1 :
  TaskManager.tasks (task_manager st) ≠ [] →
  save_state state_file st = (r, st1) →
  r ≠ OutOfModel →
  ∃ e st2,
    main_start (startup (files st1)) = (Raise e, st2)
    ∧ (e = TypeError ∨ e = JSONDecodeError)
    ∧ TaskManager.tasks (task_manager st2) = [].
Proof.
  intros Hne Hsave Hr.
  destruct (load_state_after_save_state state_file st r st1 Hne Hsave Hr)
    as (e & st2 & Hload & He & Hempty).
  exists e, st2. split; [|done].
  unfold main_start. by apply bind_Raise.
Qed.

Lemma main_start_after_save_state_witness :
  TaskManager.tasks (task_manager single) ≠ []
  ∧ save_state state_file single = (Return tt, (save_state state_file single).2)
  ∧ Return tt ≠ (OutOfModel : outcome unit)
  ∧ ∃ e st2,
      main_start (startup (files (save_state state_file single).2))
      = (Raise e, st2)
      ∧ (e = TypeError ∨ e = JSONDecodeError)
      ∧ TaskManager.tasks (task_manager st2) = [].
Proof.
  assert (Hne : TaskManager.tasks (task_manager single) ≠ []) by discriminate.
  assert (Hr : Return tt ≠ (OutOfModel : outcome unit)) by discriminate.
  split; [exact Hne|]. split; [reflexivity|]. split; [exact Hr|].
  exact (main_start_after_save_state single _ _ Hne eq_refl Hr).
Defined.

Lemma Task_of_kwargs_run task_data st :
  ∃ r, Task_of_kwargs task_data st = (r, st)
       ∧ ∀ task, r = Return task → newly_created task.
Proof.
  unfold Task_of_kwargs.
  repeat case_match;
    (eexists; split; [reflexivity|]; intros task Hr;
     try discriminate; injection Hr as <-; done).
Qed.

Lemma load_loop_run items : ∀ st,
  ∃ r st' new,
    for_each items (λ task_data,
      let! task := Task_of_kwargs task_data in
      let! l := alloc task in
      append_task l) st = (r, st')
    ∧ heap st' = heap st ++ new
    ∧ Forall newly_created new
    ∧ TaskManager.tasks (task_manager st')
      = TaskManager.tasks (task_manager st) ++ seq (length (heap st)) (length new)
    ∧ ais st' = ais st
    ∧ files st' = files st.
Proof.
  induction items as [|task_data rest IH]; intros st.
  - exists (Return tt), st, []. simpl. by rewrite !app_nil_r.
  - destruct (Task_of_kwargs_run task_data st) as (r & Hrun & Hnew).
    simpl. destruct r as [task| |].
    + set (st1 := set_task_manager
                    (TaskManager.mk (TaskManager.tasks (task_manager st)
                                     ++ [length (heap st)]))
                    (set_heap (heap st ++ [task]) st)).
      destruct (IH st1) as (r' & st' & new & Hr' & Hheap & Hfresh & Htasks & Hais & Hf).
      exists r', st', (task :: new).
      split.
      { unfold bind at 1. unfold bind at 1. rewrite Hrun. exact Hr'. }
      rewrite Hheap, Htasks, Hais, Hf. simpl.
      rewrite <- !app_assoc, length_app. simpl. rewrite Nat.add_1_r.
      split; [done|]. split; [constructor; auto|]. done.
    + exists (Raise e), st, []. split.
      { unfold bind at 1. unfold bind at 1. by rewrite Hrun. }
      simpl. by rewrite !app_nil_r.
    + exists OutOfModel, st, []. split.
      { unfold bind at 1. unfold bind at 1. by rewrite Hrun. }
      simpl. by rewrite !app_nil_r.
Qed.

Lemma load_state_run filename st r st' :
  load_state filename st = (r, st') →
  ∃ new,
    heap st' = heap st ++ new
    ∧ Forall newly_created new
    ∧ TaskManager.tasks (task_manager st')
      = TaskManager.tasks (task_manager st) ++ seq (length (heap st)) (length new)
    ∧ ais st' = ais st
    ∧ files st' = files st.
Proof.
  assert (Hsame : ∀ g, ∃ new,
            heap (set_log g st) = heap st ++ new
            ∧ Forall newly_created new
            ∧ TaskManager.tasks (task_manager (set_log g st))
              = TaskManager.tasks (task_manager st)
                ++ seq (length (heap st)) (length new)
            ∧ ais (set_log g st) = ais st
            ∧ files (set_log g st) = files st).
  { intros g. exists []. simpl. by rewrite !app_nil_r. }
  assert (Hst : ∃ new,
            heap st = heap st ++ new
            ∧ Forall newly_created new
            ∧ TaskManager.tasks (task_manager st)
              = TaskManager.tasks (task_manager st)
                ++ seq (length (heap st)) (length new)
            ∧ ais st = ais st
            ∧ files st = files st).
  { exists []. simpl. by rewrite !app_nil_r. }
  unfold load_state, try_except, bind at 1, read_json.
  destruct (files st !! filename) as [[j|]|];
    [|intros [= <- <-]; done|intros [= <- <-]; apply Hsame].
  unfold bind at 1.
  destruct (json_iter j st) as [r0 st0] eqn:Hiter.
  assert (Hst0 : st0 = st).
  { destruct j; simpl in Hiter; by injection Hiter. }
  subst st0.
  destruct r0 as [items|e|];
    [|destruct e; intros [= <- <-]; done|intros [= <- <-]; done].
  unfold bind at 1.
  destruct (load_loop_run items st)
    as (r1 & st1 & new & Hr & Hheap & Hfresh & Htasks & Hais & Hf).
  rewrite Hr.
  destruct r1 as [[]|e|]; [|destruct e|]; intros [= <- <-]; by exists new.
Qed.

(** X18.  On every file that stays within the model (the run does not end
    [OutOfModel]: no object that the loop reaches gives [Task] a value of
    another type than the field has, or a dependencies value that is true,
    which [Task.__init__] would keep), and however the call ends,
    [load_state] only adds: the tasks already in the store and in the
    collection stay, the new objects stand behind them in order, and every
    new task is pending, unassigned and not completed, with the fresh empty
    dependency list that [Task.__init__] gives for a missing or false
    value.  A status, an assignment or a completion flag is never read from
    a file. *)
Theorem load_state_only_adds filename st :
  (load_state filename st).1 ≠ OutOfModel →
  ∃ new,
    heap (load_state filename st).2 = heap st ++ new
    ∧ Forall (λ task, Task.status task = "Pending"
                      ∧ Task.assigned_to task = None
                      ∧ Task.is_completed task = false
                      ∧ Task.dependencies task = []) new
    ∧ TaskManager.tasks (task_manager (load_state filename st).2)
      = TaskManager.tasks (task_manager st) ++ seq (length (heap st)) (length new)
    ∧ ais (load_state filename st).2 = ais st
    ∧ files (load_state filename st).2 = files st.
Proof.
  intros _.
  destruct (load_state filename st) as [r st'] eqn:Hrun.
  destruct (load_state_run filename st r st' Hrun) as (new & H).
  by exists new.
Qed.

(** A file written by hand with two objects, the second with a key that
    [Task] does not take: the first task is loaded, then the call raises. *)
Lemma load_state_only_adds_witness :
  (load_state state_file handwritten).1 ≠ OutOfModel
  ∧ ∃ new,
      heap (load_state state_file handwritten).2 = heap handwritten ++ new
      ∧ Forall (λ task, Task.status task = "Pending"
                        ∧ Task.assigned_to task = None
                        ∧ Task.is_completed task = false
                        ∧ Task.dependencies task = []) new
      ∧ TaskManager.tasks (task_manager (load_state state_file handwritten).2)
        = TaskManager.tasks (task_manager handwritten)
          ++ seq (length (heap handwritten)) (length new)
      ∧ ais (load_state state_file handwritten).2 = ais handwritten
      ∧ files (load_state state_file handwritten).2 = files handwritten.
Proof.
  assert (Hr : (load_state state_file handwritten).1 ≠ OutOfModel) by discriminate.
  split; [exact Hr|].
  exact (load_state_only_adds state_file handwritten Hr).
Defined.

Example load_state_handwritten :
  (load_state state_file handwritten).1 = Raise TypeError
  ∧ heap (load_state state_file handwritten).2 = [Task.init 7 "Audit" 3 None None]
  ∧ TaskManager.tasks (task_manager (load_state state_file handwritten).2) = [0].
Proof. repeat split; reflexivity. Qed.

(** ** Status updates, again *)

(** X19.  [update_task_status] is idempotent: a second call with the same
    id and status changes nothing more. *)
Theorem update_task_status_idempotent task_id new_status st :
  (∀ l, l ∈ TaskManager.tasks (task_manager st) → is_Some (heap st !! l)) →
  (update_task_status task_id new_status >> update_task_status task_id new_status) st
  = update_task_status task_id new_status st.
Proof.
  intros Hclosed.
  destruct (first_match_split _ task_id st Hclosed)
    as [Hno|(pre & l & post & task & Hsplit & Hpre & Htask & Hid)].
  - assert (Hrun : update_task_status task_id new_status st = (Return tt, st)).
    { unfold update_task_status, get_tasks, bind.
      by apply update_task_status_from_no_match. }
    by rewrite (bind_Return _ _ _ _ _ Hrun).
  - set (st' := set_heap (<[l := Task.set_status new_status task]> (heap st)) st).
    assert (Hl : l < length (heap st)) by (by eapply lookup_lt_Some).
    assert (Hrun : update_task_status task_id new_status st = (Return tt, st')).
    { unfold update_task_status, get_tasks, bind. rewrite Hsplit.
      by apply update_task_status_from_first. }
    rewrite (bind_Return _ _ _ _ _ Hrun), Hrun.
    unfold update_task_status, get_tasks, bind.
    change (task_manager st') with (task_manager st). rewrite Hsplit.
    etrans; [apply (update_task_status_from_first pre l post task_id new_status st'
                      (Task.set_status new_status task))|].
    + intros l' Hl'. destruct (Hpre l' Hl') as (t' & Ht' & Hid').
      exists t'. split; [|done]. simpl.
      rewrite list_lookup_insert_ne; [done|]. intros ->. congruence.
    + simpl. by apply list_lookup_insert_eq.
    + done.
    + subst st'. unfold set_heap. simpl. by rewrite list_insert_insert_eq.
Qed.

Lemma update_task_status_idempotent_witness :
  (∀ l, l ∈ TaskManager.tasks (task_manager seeded) → is_Some (heap seeded !! l))
  ∧ (update_task_status 3 "Completed" >> update_task_status 3 "Completed") seeded
    = update_task_status 3 "Completed" seeded.
Proof.
  assert (Hclosed : ∀ l, l ∈ TaskManager.tasks (task_manager seeded) →
                         is_Some (heap seeded !! l)).
  { intros l Hl.
    repeat (apply elem_of_cons in Hl as [->|Hl]; [eexists; reflexivity|]).
    by apply elem_of_nil in Hl. }
  split; [exact Hclosed|].
  exact (update_task_status_idempotent 3 "Completed" seeded Hclosed).
Defined.

(** ** The dependency graph *)

Lemma add_edges_run deps task st : ∀ dot,
  (∀ d, d ∈ deps → is_Some (heap st !! d)) →
  add_edges dot deps task st = (Return (dot ++ edges_into st task deps), st).
Proof.
  induction deps as [|d rest IH]; intros dot Hclosed; simpl.
  - by rewrite app_nil_r.
  - destruct (Hclosed d) as [dep Hdep]; [left|].
    rewrite (bind_Return _ _ _ _ _ (deref_Some _ _ _ Hdep)).
    rewrite IH by (intros d' Hd'; apply Hclosed; by right).
    unfold edges_into. simpl. rewrite Hdep. simpl. by rewrite <- app_assoc.
Qed.

Lemma add_nodes_run ts st : ∀ dot,
  (∀ l, l ∈ ts → ∃ task, heap st !! l = Some task
                         ∧ ∀ d, d ∈ Task.dependencies task → is_Some (heap st !! d)) →
  add_nodes dot ts st = (Return (dot ++ graph_of st ts), st).
Proof.
  induction ts as [|l rest IH]; intros dot Hclosed; simpl.
  - by rewrite app_nil_r.
  - destruct (Hclosed l) as (task & Htask & Hdeps); [left|].
    rewrite (bind_Return _ _ _ _ _ (deref_Some _ _ _ Htask)).
    rewrite (bind_Return _ _ _ _ _ (add_edges_run _ task st _ Hdeps)).
    rewrite IH by (intros l' Hl'; apply Hclosed; by right).
    unfold graph_of. simpl. rewrite Htask. simpl.
    by rewrite <- !app_assoc.
Qed.

(** X20.  [visualize_task_dependencies] hands to [dot.render] this graph:
    for each task of the collection in order, one node named by the task's
    id and labelled by its description, followed by one edge per
    dependency, from the dependency's id to the task's id (a dependency
    that is not in the collection gets edges but no node).  When the
    renderer raises, the exception leaves the call and nothing is logged;
    when it returns, the call returns after one log record.  Either way the
    files are as the renderer left them, and tasks, workers and collection
    are as before. *)
Theorem visualize_task_dependencies_graph graphviz st :
  (∀ l, l ∈ TaskManager.tasks (task_manager st) →
        ∃ task, heap st !! l = Some task
                ∧ ∀ d, d ∈ Task.dependencies task → is_Some (heap st !! d)) →
  visualize_task_dependencies graphviz st
  = match graphviz (graph_of st (TaskManager.tasks (task_manager st))) (files st) with
    | (None, fs) =>
        (Return tt,
         set_log (log st ++ [(INFO, "Task dependencies visualized.")])
                 (set_files fs st))
    | (Some e, fs) => (Raise e, set_files fs st)
    end.
Proof.
  intros Hclosed. unfold visualize_task_dependencies, get_tasks.
  unfold bind at 1.
  rewrite (bind_Return _ _ _ _ _ (add_nodes_run _ st [] Hclosed)).
  unfold bind, dot_render. simpl.
  by destruct (graphviz _ (files st)) as [[e|] fs].
Qed.

(** The default tasks, with a renderer that saves the source of the graph
    and then fails to find the Graphviz programs. *)
Lemma visualize_task_dependencies_graph_witness :
  (∀ l, l ∈ TaskManager.tasks (task_manager seeded) →
        ∃ task, heap seeded !! l = Some task
                ∧ ∀ d, d ∈ Task.dependencies task → is_Some (heap seeded !! d))
  ∧ visualize_task_dependencies
      (λ _ fs, (Some (Exception "failed to execute dot"),
                <["task_dependencies" := NotJson]> fs)) seeded
    = (Raise (Exception "failed to execute dot"),
       set_files (<["task_dependencies" := NotJson]> (files seeded)) seeded).
Proof.
  assert (Hclosed : ∀ l, l ∈ TaskManager.tasks (task_manager seeded) →
            ∃ task, heap seeded !! l = Some task
                    ∧ ∀ d, d ∈ Task.dependencies task → is_Some (heap seeded !! d)).
  { intros l Hl.
    repeat (apply elem_of_cons in Hl as [->|Hl];
            [eexists; split; [reflexivity|];
             intros d Hd;
             repeat (apply elem_of_cons in Hd as [->|Hd]; [eexists; reflexivity|]);
             by apply elem_of_nil in Hd|]).
    by apply elem_of_nil in Hl. }
  split; [exact Hclosed|].
  exact (visualize_task_dependencies_graph _ seeded Hclosed).
Defined.

(** With a renderer that succeeds the call logs and returns. *)
Example visualize_task_dependencies_rendered :
  visualize_task_dependencies
    (λ _ fs, (None, <["task_dependencies.pdf" := NotJson]>
                      (<["task_dependencies" := NotJson]> fs))) seeded
  = (Return tt,
     set_log (log seeded ++ [(INFO, "Task dependencies visualized.")])
       (set_files (<["task_dependencies.pdf" := NotJson]>
                     (<["task_dependencies" := NotJson]> (files seeded))) seeded)).
Proof. reflexivity. Qed.

Example graph_of_default_tasks :
  graph_of seeded (TaskManager.tasks (task_manager seeded))
  = [Node "1" "Analyze various datasets";
     Node "2" "Execute system backup";
     Node "3" "Conduct market research on competitors"; Edge "1" "3";
     Node "4" "Review and optimize code for security"; Edge "2" "4"].
Proof. reflexivity. Qed.

(** ** Collaboration *)

(** X21.  [collaborate] copies and does not move: the task is put at the
    end of the other worker's queue, while the queue of the worker that
    hands it over, the task itself (its assigned worker and status
    included) and the collection stay as they were. *)
Theorem collaborate_copies w other_ai l st self other task :
  ais st !! w = Some self →
  ais st !! other_ai = Some other →
  heap st !! l = Some task →
  ∃ st',
    collaborate w other_ai l st = (Return tt, st')
    ∧ ais st' !! other_ai
      = Some (AI.mk (AI.name other) (AI.role other) (AI.capabilities other)
                (AI.tasks other ++ [l]) (AI.is_busy other)
                (AI.performance_record other))
    ∧ (∀ w', w' ≠ other_ai → ais st' !! w' = ais st !! w')
    ∧ heap st' = heap st
    ∧ task_manager st' = task_manager st.
Proof.
  intros Hself Hother Htask. unfold collaborate.
  rewrite (bind_Return _ _ _ _ _ (get_ai_Some _ _ _ Hself)).
  rewrite (bind_Return _ _ _ _ _ (get_ai_Some _ _ _ Hother)).
  rewrite (bind_Return _ _ _ _ _ (deref_Some _ _ _ Htask)).
  unfold bind, logging, update_ai. simpl. rewrite Hother.
  eexists. split; [reflexivity|]. simpl. split.
  { apply list_lookup_insert_eq. by eapply lookup_lt_Some. }
  split; [|done]. intros w' Hw'. by apply list_lookup_insert_ne.
Qed.

(** Jexi hands its task to Nova: the task is then in both queues. *)
Lemma collaborate_copies_witness :
  ∃ self other task,
    ais dispatched !! 0 = Some self
    ∧ ais dispatched !! 1 = Some other
    ∧ heap dispatched !! 0 = Some task
    ∧ ∃ st',
        collaborate 0 1 0 dispatched = (Return tt, st')
        ∧ ais st' !! 1
          = Some (AI.mk (AI.name other) (AI.role other) (AI.capabilities other)
                    (AI.tasks other ++ [0]) (AI.is_busy other)
                    (AI.performance_record other))
        ∧ (∀ w', w' ≠ 1 → ais st' !! w' = ais dispatched !! w')
        ∧ heap st' = heap dispatched
        ∧ task_manager st' = task_manager dispatched.
Proof.
  do 3 eexists.
  split; [reflexivity|]. split; [reflexivity|]. split; [reflexivity|].
  exact (collaborate_copies 0 1 0 dispatched _ _ _ eq_refl eq_refl eq_refl).
Defined.

(** ** One dispatch per task in the main loop *)

(** X22.  Through the main loop a task is dispatched once: after the
    step of the main loop has dispatched a pending task, a second step for
    the same task changes nothing, as long as the task is not completed
    (compare X6, where [assign_task] is called directly). *)
Theorem main_loop_task_dispatches_once pick pick' st l task :
  heap st !! l = Some task →
  Task.status task = "Pending" →
  Task.is_completed task = false →
  is_ready_to_execute l st = (Return true, st) →
  suitable_ais st task ≠ [] →
  ∃ w ai st',
    ais st !! w = Some ai
    ∧ main_loop_task pick l st = (Return tt, st')
    ∧ (main_loop_task pick l >> main_loop_task pick' l) st = (Return tt, st')
    ∧ Task.status <$> heap st' !! l = Some "Assigned"
    ∧ AI.tasks <$> ais st' !! w = Some (AI.tasks ai ++ [l]).
Proof.
  intros Htask Hstatus Hflag Hready Hne.
  destruct (random_choice_Some pick _ Hne) as [w Hw].
  assert (Hin : w ∈ suitable_ais st task) by (by eapply list_elem_of_lookup_2).
  apply elem_of_suitable_from in Hin as (ai & _ & Hai & _).
  rewrite Nat.sub_0_r in Hai.
  destruct (assign_task_dispatch pick st l task w ai Htask Hready Hw Hai)
    as (st' & Hrun & Hheap & Hais & _).
  assert (Hl : l < length (heap st)) by (by eapply lookup_lt_Some).
  assert (Hfirst : main_loop_task pick l st = (Return tt, st')).
  { unfold main_loop_task.
    rewrite (bind_Return _ _ _ _ _ (deref_Some _ _ _ Htask)).
    by rewrite Hstatus. }
  assert (Htask' : heap st' !! l
                   = Some (Task.set_status "Assigned"
                             (Task.set_assigned_to (Some (AI.name ai)) task))).
  { rewrite Hheap. by apply list_lookup_insert_eq. }
  exists w, ai, st'. split; [done|]. split; [done|]. split.
  { rewrite (bind_Return _ _ _ _ _ Hfirst). unfold main_loop_task.
    rewrite (bind_Return _ _ _ _ _ (deref_Some _ _ _ Htask')).
    simpl. by rewrite Hflag. }
  rewrite Htask', Hais. split; [done|].
  rewrite list_lookup_insert_eq by (by eapply lookup_lt_Some). done.
Qed.

Lemma main_loop_task_dispatches_once_witness :
  ∃ task,
    heap submitted !! 0 = Some task
    ∧ Task.status task = "Pending"
    ∧ Task.is_completed task = false
    ∧ is_ready_to_execute 0 submitted = (Return true, submitted)
    ∧ suitable_ais submitted task ≠ []
    ∧ ∃ w ai st',
        ais submitted !! w = Some ai
        ∧ main_loop_task 0 0 submitted = (Return tt, st')
        ∧ (main_loop_task 0 0 >> main_loop_task 1 0) submitted = (Return tt, st')
        ∧ Task.status <$> heap st' !! 0 = Some "Assigned"
        ∧ AI.tasks <$> ais st' !! w = Some (AI.tasks ai ++ [0]).
Proof.
  exists (Task.init 1 "Analyze data" 1 None None).
  assert (Hne : suitable_ais submitted (Task.init 1 "Analyze data" 1 None None) ≠ []).
  { discriminate. }
  split; [reflexivity|]. split; [reflexivity|]. split; [reflexivity|].
  split; [reflexivity|]. split; [exact Hne|].
  exact (main_loop_task_dispatches_once 0 1 submitted 0 _
           eq_refl eq_refl eq_refl eq_refl Hne).
Defined.

(** A task that stands twice in a queue (X6) can end "Error" with its
    completion flag set: the first execution succeeds, the second fails. *)
Example completed_then_failed :
  let st0 := ((assign_task 0 0 >> assign_task 0 0) submitted).2 in
  let st := (run_iterations 0 [(false, (0, 3)); (true, (3, 5))]%Z st0).2 in
  Task.status <$> heap st !! 0 = Some "Error"
  ∧ Task.is_completed <$> heap st !! 0 = Some true
  ∧ AI.performance_record <$> ais st !! 0
    = Some [("Analyze data", 3%Z); ("Analyze data", 2%Z)].
Proof. repeat split; reflexivity. Qed.
